(** * md2pdf: the resume markdown-to-LaTeX transpiler of [md2pdf.py]

    A shallow embedding of [escape_tex], [fmt], [parse_heading3],
    [parse_meta] and [build_resume_tex], and the properties of the
    scanning loop and of its list bookkeeping.

    The first part gives the definitions, function by function as in the
    source: Python strings, the regular expressions, the inline formatter,
    the heading parsers, the template and the block state machine.  The
    second part proves the properties. *)

From Stdlib Require Import List NArith Bool Arith Lia String Ascii.
Import ListNotations.

Local Open Scope N_scope.

(** ** Python strings

    A Python [str] is a sequence of Unicode code points.  String literals
    of the source are written as Rocq strings (UTF-8 bytes) and decoded
    into code points by [u]. *)

Abbreviation str := (list N).

Fixpoint utf8 (bs : list N) : str :=
  match bs with
  | [] => []
  | b :: r =>
    if b <? 128 then b :: utf8 r
    else if b <? 224 then
      match r with
      | b1 :: r1 => ((b - 192) * 64 + (b1 - 128)) :: utf8 r1
      | _ => []
      end
    else if b <? 240 then
      match r with
      | b1 :: b2 :: r2 =>
        ((b - 224) * 4096 + (b1 - 128) * 64 + (b2 - 128)) :: utf8 r2
      | _ => []
      end
    else
      match r with
      | b1 :: b2 :: b3 :: r3 =>
        ((b - 240) * 262144 + (b1 - 128) * 4096 + (b2 - 128) * 64
         + (b3 - 128)) :: utf8 r3
      | _ => []
      end
  end.

Definition u (s : string) : str :=
  utf8 (map N_of_ascii (list_ascii_of_string s)).

(** A one-character literal. *)
Definition chr (s : string) : N := hd 0 (u s).

(** Literals of the source: [lit s] stands for the code points [u s],
    computed where it is written, so that a definition holds the list
    itself. *)
Notation "'lit' s" :=
  (ltac:(let v := eval vm_compute in (u s%string) in exact v))
  (at level 1, s at level 0, only parsing).
Notation "'ch' s" :=
  (ltac:(let v := eval vm_compute in (chr s%string) in exact v))
  (at level 1, s at level 0, only parsing).

Definition nl : N := 10.

Fixpoint str_eqb (a b : str) : bool :=
  match a, b with
  | [], [] => true
  | x :: a', y :: b' => if x =? y then str_eqb a' b' else false
  | _, _ => false
  end.

(** [str.isspace] on one code point: the characters removed by [strip()]
    and matched by the regular-expression class of white space. *)
Definition is_space (c : N) : bool :=
  ((9 <=? c) && (c <=? 13)) || ((28 <=? c) && (c <=? 32))
  || (c =? 133) || (c =? 160) || (c =? 5760)
  || ((8192 <=? c) && (c <=? 8202))
  || (c =? 8232) || (c =? 8233) || (c =? 8239) || (c =? 8287)
  || (c =? 12288).

Fixpoint dropwhile (p : N -> bool) (s : str) : str :=
  match s with
  | [] => []
  | c :: s' => if p c then dropwhile p s' else s
  end.

Definition lstrip (s : str) : str := dropwhile is_space s.
Definition rstrip (s : str) : str := rev (dropwhile is_space (rev s)).
Definition strip (s : str) : str := rstrip (lstrip s).

(** [s.lstrip(c)] for a one-character argument. *)
Definition lstrip_char (c : N) (s : str) : str := dropwhile (N.eqb c) s.

(** [strip_prefix p s] is [Some r] when [s = p ++ r]. *)
Fixpoint strip_prefix (p s : str) : option str :=
  match p with
  | [] => Some s
  | x :: p' =>
    match s with
    | y :: s' => if x =? y then strip_prefix p' s' else None
    | [] => None
    end
  end.

Definition startswith (p s : str) : bool :=
  match strip_prefix p s with Some _ => true | None => false end.

(** The text before and after the first occurrence of [sep]: what
    [sep in s] tests and [s.split(sep, 1)] returns. *)
Fixpoint find_split (sep s : str) : option (str * str) :=
  match strip_prefix sep s with
  | Some r => Some ([], r)
  | None =>
    match s with
    | [] => None
    | c :: s' =>
      match find_split sep s' with
      | Some (a, b) => Some (c :: a, b)
      | None => None
      end
    end
  end.

Definition contains (sep s : str) : bool :=
  match find_split sep s with Some _ => true | None => false end.

(** [s.replace(c, new)] for a one-character [c]. *)
Fixpoint replace1 (c : N) (new s : str) : str :=
  match s with
  | [] => []
  | x :: s' => if x =? c then new ++ replace1 c new s'
               else x :: replace1 c new s'
  end.

(** [s.split(c)] for a one-character separator. *)
Fixpoint split_on (c : N) (s : str) : list str :=
  match s with
  | [] => [[]]
  | x :: s' =>
    if x =? c then [] :: split_on c s'
    else match split_on c s' with
         | h :: t => (x :: h) :: t
         | [] => [[x]]
         end
  end.

(** [sep.join(l)]. *)
Fixpoint join (sep : str) (l : list str) : str :=
  match l with
  | [] => []
  | [x] => x
  | x :: l' => x ++ sep ++ join sep l'
  end.

(** ** Regular expressions of the source

    [lazy_group delim s] matches a lazy group of one or more characters
    other than the newline, followed by the literal [delim]; it returns
    the group and the text after [delim]. *)
Fixpoint lazy_group (delim s : str) : option (str * str) :=
  match s with
  | [] => None
  | c :: s' =>
    if c =? nl then None
    else match strip_prefix delim s' with
         | Some rest => Some ([c], rest)
         | None =>
           match lazy_group delim s' with
           | Some (g, rest) => Some (c :: g, rest)
           | None => None
           end
         end
  end.

(** [re.sub]: scan from the left; where the pattern matches, emit the
    replacement and go on after the match, otherwise keep one character.
    [pat] returns the replacement and the text after the match. *)
Fixpoint re_sub (pat : str -> option (str * str)) (fuel : nat) (s : str)
  : str :=
  match fuel with
  | O => s
  | S f =>
    match s with
    | [] => []
    | c :: s' =>
      match pat s with
      | Some (repl, rest) => repl ++ re_sub pat f rest
      | None => c :: re_sub pat f s'
      end
    end
  end.

(** Bold: two stars, a lazy group, two stars. *)
Definition pat_bold (s : str) : option (str * str) :=
  match strip_prefix (lit "**") s with
  | Some r =>
    match lazy_group (lit "**") r with
    | Some (g, rest) => Some (lit "\textbf{" ++ g ++ lit "}", rest)
    | None => None
    end
  | None => None
  end.

(** Italic: one star, a lazy group, one star. *)
Definition pat_italic (s : str) : option (str * str) :=
  match strip_prefix (lit "*") s with
  | Some r =>
    match lazy_group (lit "*") r with
    | Some (g, rest) => Some (lit "\textit{" ++ g ++ lit "}", rest)
    | None => None
    end
  | None => None
  end.

(** Link: bracketed lazy group, parenthesised lazy group.  [link_tail]
    matches what follows the first group; the first group is extended
    (backtracking) while the rest of the pattern fails. *)
Definition link_tail (s : str) : option (str * str) :=
  match strip_prefix (lit "](") s with
  | Some r => lazy_group (lit ")") r
  | None => None
  end.

Fixpoint link_groups (s : str) : option (str * str * str) :=
  match s with
  | [] => None
  | c :: s' =>
    if c =? nl then None
    else
      match link_tail s' with
      | Some (g2, rest) => Some ([c], g2, rest)
      | None =>
        match link_groups s' with
        | Some (g1, g2, rest) => Some (c :: g1, g2, rest)
        | None => None
        end
      end
  end.

Definition pat_link (s : str) : option (str * str) :=
  match strip_prefix (lit "[") s with
  | Some r =>
    match link_groups r with
    | Some (g1, g2, rest) =>
      Some (lit "\href{" ++ g2 ++ lit "}{" ++ g1 ++ lit "}", rest)
    | None => None
    end
  | None => None
  end.

(** ** Inline formatter *)

Definition escape_tex (t : str) : str :=
  let t := replace1 (ch "&") (lit "\&") t in
  let t := replace1 (ch "%") (lit "\%") t in
  let t := replace1 (ch "#") (lit "\#") t in
  replace1 (ch "_") (lit "\_") t.

(** The markup substitutions of [fmt], applied to escaped text. *)
Definition fmt_markup (t : str) : str :=
  let t := re_sub pat_bold (List.length t) t in
  let t := re_sub pat_italic (List.length t) t in
  let t := re_sub pat_link (List.length t) t in
  let t := replace1 (ch "→") (lit "$\rightarrow$") t in
  let t := replace1 (ch "–") (lit "--") t in
  replace1 0x201d (lit "''") (replace1 0x201c (lit "``") t).

Definition fmt (t : str) : str := fmt_markup (escape_tex t).

(** ** Heading parsers *)

Fixpoint split_first (seps : list str) (text : str) : str * str :=
  match seps with
  | [] => (text, [])
  | sep :: seps' =>
    match find_split sep text with
    | Some (a, b) => (strip a, strip b)
    | None => split_first seps' text
    end
  end.

Definition heading_seps : list str :=
  [lit " — "; lit " -- "; lit " \textemdash "; [0x2014]].

(** The text of a heading line: [line.lstrip('#').strip()]. *)
Definition heading_text (line : str) : str :=
  strip (lstrip_char (ch "#") line).

Definition parse_heading3 (line : str) : str * str :=
  split_first heading_seps (heading_text line).

(** The optional tail of the metadata pattern: white space, a pipe, white
    space, a star, a lazy group, a star.  Returns the group. *)
Definition meta_tail (s : str) : option str :=
  match lstrip s with
  | c :: r =>
    if c =? ch "|" then
      match lstrip r with
      | c2 :: r2 =>
        if c2 =? ch "*" then
          match lazy_group (lit "*") r2 with
          | Some (g, _) => Some g
          | None => None
          end
        else None
      | [] => None
      end
    else None
  | [] => None
  end.

(** [re.match] of the metadata pattern: groups 1 and 2. *)
Definition match_meta (raw : str) : option (str * option str) :=
  match strip_prefix (lit "**") raw with
  | Some r =>
    match lazy_group (lit "**") r with
    | Some (g1, rest) => Some (g1, meta_tail rest)
    | None => None
    end
  | None => None
  end.

Definition parse_meta (line : str) : str * str * str :=
  let raw := strip line in
  match match_meta raw with
  | None => ([], [], [])
  | Some (g1, g2) =>
    let bold_part := strip g1 in
    let extra :=
      match g2 with
      | Some (c :: e) => strip (c :: e)
      | _ => []
      end in
    match find_split (lit "|") bold_part with
    | Some (loc, dates) => (strip loc, strip dates, extra)
    | None => ([], strip bold_part, extra)
    end
  end.

(** The label pattern of flat bullets: the bold command, a lazy group, a
    colon, an optional closing brace, white space, the rest of the line.
    Returns groups 1 and 2. *)
Fixpoint upto_nl (s : str) : str :=
  match s with
  | [] => []
  | c :: s' => if c =? nl then [] else c :: upto_nl s'
  end.

Definition match_label (text : str) : option (str * str) :=
  match strip_prefix (lit "\textbf{") text with
  | Some r =>
    match lazy_group (lit ":") r with
    | Some (g1, rest) =>
      let rest := match strip_prefix (lit "}") rest with
                  | Some r' => r'
                  | None => rest
                  end in
      Some (g1, upto_nl (lstrip rest))
    | None => None
    end
  | None => None
  end.

(** [re.match] of a heading pattern: [n] hashes, a space, and a character
    other than the hash. *)
Definition is_heading (n : nat) (L : str) : bool :=
  match strip_prefix (repeat (ch "#") n ++ lit " ") L with
  | Some (c :: _) => negb (c =? ch "#")
  | _ => false
  end.

Definition is_ascii (c : N) : bool := c <? 128.

Definition ascii_lower (c : N) : N :=
  if (65 <=? c) && (c <=? 90) then c + 32 else c.

Definition en_dash : N := ch "–".
Definition em_dash : N := 0x2014.

Local Close Scope N_scope.

(** ** The template *)

Definition LATEX_PREAMBLE : str :=
  Eval vm_compute in join [nl] (map u [
    "\documentclass[letterpaper,11pt]{article}";
    "";
    "\usepackage{latexsym}";
    "\usepackage[empty]{fullpage}";
    "\usepackage{titlesec}";
    "\usepackage{marvosym}";
    "\usepackage[usenames,dvipsnames]{color}";
    "\usepackage{verbatim}";
    "\usepackage{enumitem}";
    "\usepackage{hyperref}";
    "\usepackage{fancyhdr}";
    "";
    "\pagestyle{fancy}";
    "\fancyhf{}";
    "\fancyfoot{}";
    "\renewcommand{\headrulewidth}{0pt}";
    "\renewcommand{\footrulewidth}{0pt}";
    "";
    "\addtolength{\oddsidemargin}{-0.375in}";
    "\addtolength{\evensidemargin}{-0.375in}";
    "\addtolength{\textwidth}{1in}";
    "\addtolength{\topmargin}{-.5in}";
    "\addtolength{\textheight}{1.0in}";
    "";
    "\urlstyle{same}";
    "\raggedbottom";
    "\raggedright";
    "\setlength{\tabcolsep}{0in}";
    "";
    "\titleformat{\section}{";
    "  \vspace{-4pt}\scshape\raggedright\large";
    "}{}{0em}{}[\color{black}\titlerule \vspace{-5pt}]";
    "";
    "\newcommand{\resumeSubheading}[4]{";
    "  \vspace{-1pt}\item";
    "    \begin{tabular*}{0.97\textwidth}{l@{\extracolsep{\fill}}r}";
    "      \textbf{#1} & #2 \\";
    "      \textit{\small#3} & \textit{\small #4} \\";
    "    \end{tabular*}\vspace{-5pt}";
    "}";
    "";
    "\renewcommand{\labelitemii}{$\circ$}";
    "";
    "\newcommand{\resumeSubHeadingListStart}{\begin{itemize}[leftmargin=*]}";
    "\newcommand{\resumeSubHeadingListEnd}{\end{itemize}}";
    "\newcommand{\resumeItemListStart}{\begin{itemize}}";
    "\newcommand{\resumeItemListEnd}{\end{itemize}\vspace{-5pt}}";
    "";
    "\setlength{\footskip}{4.08003pt}";
    "\begin{document}";
    ""
  ]%string).

(** The four list directives, as the lines the code appends. *)
Definition SUB_LIST_START : str := lit "  \resumeSubHeadingListStart".
Definition SUB_LIST_END : str := lit "  \resumeSubHeadingListEnd".
Definition ITEM_LIST_START : str := lit "    \resumeItemListStart".
Definition ITEM_LIST_END : str := lit "    \resumeItemListEnd".

(** ** Block state machine

    The local variables of [build_resume_tex]: the cursor [i], the output
    buffer [out] and the three flags. *)
Record state := mkState {
  i : nat;
  out : list str;
  item_list_open : bool;
  sub_list_open : bool;
  current_section : str
}.

Definition emit (l : str) (st : state) : state :=
  mkState (i st) (out st ++ [l]) (item_list_open st) (sub_list_open st)
          (current_section st).

Definition emits (ls : list str) (st : state) : state :=
  fold_left (fun s l => emit l s) ls st.

Definition goto (k : nat) (st : state) : state :=
  mkState k (out st) (item_list_open st) (sub_list_open st)
          (current_section st).

Definition set_item (b : bool) (st : state) : state :=
  mkState (i st) (out st) b (sub_list_open st) (current_section st).

Definition set_sub (b : bool) (st : state) : state :=
  mkState (i st) (out st) (item_list_open st) b (current_section st).

Definition set_section (s : str) (st : state) : state :=
  mkState (i st) (out st) (item_list_open st) (sub_list_open st) s.

Definition close_items (st : state) : state :=
  if item_list_open st then set_item false (emit ITEM_LIST_END st)
  else st.

Definition close_sublist (st : state) : state :=
  let st := close_items st in
  if sub_list_open st then set_sub false (emit SUB_LIST_END st)
  else st.

Definition is_blank (l : str) : bool :=
  match strip l with [] => true | _ => false end.

(** The inner loops [while j < len(lines) and not lines[j].strip()]. *)
Fixpoint skip_blank_from (ls : list str) (j : nat) : nat :=
  match ls with
  | [] => j
  | l :: ls' => if is_blank l then skip_blank_from ls' (S j) else j
  end.

Definition skip_blank (lines : list str) (j : nat) : nat :=
  skip_blank_from (skipn j lines) j.

(** The dispatch of the loop body on the trimmed line [L]: the chain of
    tests, in the order of the source. *)
Inductive kind :=
  Blank | H1 | H2 | H3 | H4 | Bullet | Other.

Definition kind_of (L : str) : kind :=
  match L with
  | [] => Blank
  | _ =>
    if startswith (lit "---") L then Blank
    else if is_heading 1 L then H1
    else if is_heading 2 L then H2
    else if is_heading 3 L then H3
    else if is_heading 4 L then H4
    else if startswith (lit "- ") L then Bullet
    else Other
  end.

Definition is_flat (section : str) : bool :=
  contains (lit "skill") section || contains (lit "co-curricular") section.

Section Scan.

(** [str.lower]: on ASCII text the letters A to Z are mapped to a to z;
    on other text Python follows the Unicode case tables, which are not
    part of the repository and are taken as a parameter. *)
Variable unicode_lower : str -> str.

Definition lower (s : str) : str :=
  if forallb is_ascii s then map ascii_lower s else unicode_lower s.

Variable lines : list str.

Definition line (k : nat) : str := nth k lines [].

(** The line of the header block that holds the contact. *)
Definition contact_line (contact : str) : str := lit "  " ++ contact.

(** The title handler. *)
Definition handle_h1 (L : str) (st : state) : state :=
  let name := escape_tex (strip (skipn 2 L)) in
  let j := skip_blank lines (S (i st)) in
  let contact :=
    if j <? List.length lines then fmt (strip (line j)) else [] in
  goto (S j)
    (emits [lit "\begin{tabular*}{\textwidth}{l@{\extracolsep{\fill}}r}";
            lit "  \textbf{\Large " ++ name ++ lit "} & \\";
            contact_line contact;
            lit "\end{tabular*}";
            lit "\vspace{2mm}"] st).

(** The section handler. *)
Definition handle_h2 (L : str) (st : state) : state :=
  let st := close_sublist st in
  let st := set_section (lower (strip (skipn 3 L))) st in
  let st := emit (lit "\section{" ++ escape_tex (strip (skipn 3 L))
                  ++ lit "}") st in
  let st := emit SUB_LIST_START st in
  goto (S (i st)) (set_sub true st).

(** The entry handler looks past blank lines after cursor [k] for a line
    that starts with the bold marker. *)
Definition has_meta (k : nat) : bool :=
  let j := skip_blank lines (S k) in
  (j <? List.length lines) && startswith (lit "**") (strip (line j)).

(** The metadata lookahead of the entry handler at cursor [k] with the
    role of the heading: location, dates and role as emitted, and the
    next cursor. *)
Definition meta_lookahead (k : nat) (role : str)
  : str * str * str * nat :=
  let j := skip_blank lines (S k) in
  if has_meta k then
    let '(loc, dates, extra) := parse_meta (line j) in
    let loc := replace1 en_dash (lit "--") loc in
    let dates := replace1 en_dash (lit "--") dates in
    let role :=
      match extra with
      | [] => role
      | _ => match role with
             | [] => extra
             | _ => role ++ lit " | " ++ extra
             end
      end in
    (loc, dates, role, S j)
  else ([], [], role, S k).

(** The entry handler. *)
Definition handle_h3 (L : str) (st : state) : state :=
  let st := close_items st in
  let '(company, role) := parse_heading3 L in
  let company := escape_tex company in
  let role := escape_tex role in
  let '(loc, dates, role, next) := meta_lookahead (i st) role in
  let st := goto next st in
  let peek := skip_blank lines next in
  let has_h4 := (peek <? List.length lines)
                && startswith (lit "####") (strip (line peek)) in
  if contains (lit "education") (current_section st) then
    let uni := match dates with [] => loc | _ => dates end in
    emits [lit "    \resumeSubheading{" ++ company ++ lit "}{}";
           lit "      {" ++ escape_tex uni ++ lit "}{}"] st
  else if has_h4 then
    emits [lit "    \vspace{-1pt}\item";
           lit "      \begin{tabular*}{0.97\textwidth}{l@{\extracolsep{\fill}}r}";
           lit "        \textbf{" ++ company ++ lit "} & " ++ escape_tex loc
             ++ lit " \\";
           lit "        \textit{\small " ++ role ++ lit "} & \textit{\small "
             ++ escape_tex dates ++ lit "} \\";
           lit "      \end{tabular*}\vspace{2pt}"] st
  else
    emits [lit "    \resumeSubheading{" ++ company ++ lit "}{"
             ++ escape_tex loc ++ lit "}";
           lit "      {" ++ role ++ lit "}{" ++ escape_tex dates ++ lit "}"] st.

(** The sub-header handler. *)
Definition handle_h4 (L : str) (st : state) : state :=
  let st := close_items st in
  let header := escape_tex (strip (skipn 5 L)) in
  goto (S (i st))
    (emits [lit "    {\small " ++ header ++ lit "}"; lit "    \vspace{-8pt}"] st).

(** The bullet handler. *)
Definition handle_bullet (L : str) (st : state) : state :=
  let text := fmt (strip (skipn 2 L)) in
  let st :=
    if is_flat (current_section st) then
      match match_label text with
      | Some (g1, g2) =>
        emit (lit "    \item[$\circ$]\small{\textbf{" ++ g1 ++ lit "}{: "
              ++ g2 ++ lit "}}\vspace{-5pt}") st
      | None =>
        emit (lit "    \item[$\circ$]\small{" ++ text
              ++ lit "}\vspace{-5pt}") st
      end
    else
      let st := if item_list_open st then st
                else set_item true (emit ITEM_LIST_START st) in
      emit (lit "      \item\small{" ++ text ++ lit "}") st in
  goto (S (i st)) st.

(** One iteration of the scanning loop, for a cursor inside [lines]. *)
Definition step (st : state) : state :=
  let L := strip (line (i st)) in
  match kind_of L with
  | Blank => goto (S (i st)) st
  | H1 => handle_h1 L st
  | H2 => handle_h2 L st
  | H3 => handle_h3 L st
  | H4 => handle_h4 L st
  | Bullet => handle_bullet L st
  | Other => goto (S (i st)) st
  end.

(** The loop [while i < len(lines)]. *)
Fixpoint scan (fuel : nat) (st : state) : state :=
  match fuel with
  | O => st
  | S f => if i st <? List.length lines then scan f (step st) else st
  end.

Definition init : state := mkState 0 [LATEX_PREAMBLE] false false [].

(** The state when the loop is left, and the buffer that is joined. *)
Definition scanned : state := scan (List.length lines) init.

Definition final_out : list str :=
  out (close_sublist scanned) ++ [lit "\end{document}"].

(** The states the loop goes through. *)
Inductive reachable : state -> Prop :=
| reach_init : reachable init
| reach_step (st : state) :
    reachable st -> i st < List.length lines -> reachable (step st).

End Scan.

Definition split_lines (md_text : str) : list str :=
  split_on nl (strip md_text).

Definition build_resume_tex (unicode_lower : str -> str) (md_text : str)
  : str :=
  join [nl] (final_out unicode_lower (split_lines md_text)).

(** An instance of the case-table parameter that leaves text outside
    ASCII as it is; the examples below run the scan with it on ASCII
    section titles, where the parameter is not consulted. *)
Definition keep_case (s : str) : str := s.

(** ** Reading the output

    The list directives among the lines of an output, in order. *)
Inductive directive := SubStart | SubEnd | ItemStart | ItemEnd.

Definition classify (l : str) : option directive :=
  if str_eqb l SUB_LIST_START then Some SubStart
  else if str_eqb l SUB_LIST_END then Some SubEnd
  else if str_eqb l ITEM_LIST_START then Some ItemStart
  else if str_eqb l ITEM_LIST_END then Some ItemEnd
  else None.

Fixpoint directives (ls : list str) : list directive :=
  match ls with
  | [] => []
  | l :: ls' =>
    match classify l with
    | Some d => d :: directives ls'
    | None => directives ls'
    end
  end.






(** A text without the newline character. *)
Definition no_nl (s : str) : bool := forallb (fun c => negb (N.eqb c nl)) s.

(** The buffer of [st'] is that of [st] with lines added that hold no
    newline. *)
Definition grows (st st' : state) : Prop :=
  exists ls, out st' = out st ++ ls /\ Forall (fun l => no_nl l = true) ls.

(** The lines of the returned string. *)
Definition output_lines (unicode_lower : str -> str) (md_text : str)
  : list str :=
  split_on nl (build_resume_tex unicode_lower md_text).

(** A line whose trimmed text is the bare name of a sub-list directive. *)
Definition bare_directive (l : str) : bool :=
  str_eqb (strip l) (lit "\resumeSubHeadingListStart")
  || str_eqb (strip l) (lit "\resumeSubHeadingListEnd").

(** Line [t] is a title line, and the first non-blank line after it is
    such a bare name. *)
Definition bare_contact (lines : list str) (t : nat) : bool :=
  match kind_of (strip (line lines t)) with
  | H1 =>
    let j := skip_blank lines (S t) in
    (j <? List.length lines) && bare_directive (line lines j)
  | _ => false
  end.

(** No title line of the input is followed by such a line. *)
Definition no_bare_contact (lines : list str) : bool :=
  forallb (fun t => negb (bare_contact lines t))
          (seq 0 (List.length lines)).



(** A section title line has been emitted. *)
Definition has_section (ls : list str) : bool :=
  existsb (startswith (lit "\section{")) ls.

(** An emitted line that is no section title, and no list directive
    unless it is the contact line that a title line [t] takes from the
    input. *)
Definition quiet (lines : list str) (l : str) : Prop :=
  has_section [l] = false /\
  (classify l = None \/
   exists t, t < List.length lines
             /\ kind_of (strip (line lines t)) = H1
             /\ skip_blank lines (S t) < List.length lines
             /\ l = contact_line
                      (fmt (strip (line lines (skip_blank lines (S t)))))).

(** ** Style selection

    [guess_style] and the choice of the style in [main]; the style sheets
    of [STYLES] are looked up by name, their text is left as parameters. *)

Section Styles.

Variable unicode_lower : str -> str.

Definition guess_style (f : str) : str :=
  let n := lower unicode_lower f in
  if contains (lit "resume") n || contains (lit "cv") n then lit "resume"
  else if contains (lit "note") n || contains (lit "study") n
          || contains (lit "learn") n then lit "notes"
  else lit "doc".

(** [args.style or guess_style(md_path.name)]: the option given on the
    command line when there is one (a non-empty string), the guess
    otherwise. *)
Definition select_style (arg : option str) (name : str) : str :=
  match arg with
  | Some (c :: s) => c :: s
  | _ => guess_style name
  end.

Variables doc_css notes_css : str.

Definition STYLES : list (str * str) :=
  [(lit "doc", doc_css); (lit "notes", notes_css)].

(** [STYLES[style]]: [None] stands for the [KeyError]. *)
Fixpoint lookup (d : list (str * str)) (key : str) : option str :=
  match d with
  | [] => None
  | (k, v) :: d' => if str_eqb k key then Some v else lookup d' key
  end.

(** The branch [main] takes: the resume builder, or the style sheet that
    [build_html_pdf] asks of [STYLES]. *)
Inductive route := ResumeRoute | HtmlRoute (css : option str).

Definition dispatch (style : str) : route :=
  if str_eqb style (lit "resume") then ResumeRoute
  else HtmlRoute (lookup STYLES style).

End Styles.

(** The values [--style] accepts. *)
Definition style_choices : list str := [lit "resume"; lit "doc"; lit "notes"].

(** ** Character classes of the formatter *)

Local Open Scope N_scope.

(** The characters [escape_tex] escapes. *)
Definition is_special (c : N) : bool :=
  (c =? ch "&") || (c =? ch "%") || (c =? ch "#") || (c =? ch "_").

(** The characters that start a markup pattern of [fmt]. *)
Definition is_markup (c : N) : bool := (c =? ch "*") || (c =? ch "[").

(** The typographic characters [fmt] rewrites. *)
Definition is_typographic (c : N) : bool :=
  (c =? ch "→") || (c =? ch "–") || (c =? 0x201c) || (c =? 0x201d).

(** Text that no step of [fmt] touches. *)
Definition inert (s : str) : bool :=
  forallb (fun c => negb (is_special c || is_markup c || is_typographic c)) s.

(** Text of one line with no markup and no typographic character. *)
Definition markup_free (s : str) : bool :=
  forallb (fun c => negb (is_markup c || is_typographic c || (c =? nl))) s.

(** What [escape_tex] makes of one character. *)
Definition escape_char (c : N) : str :=
  if is_special c then [92; c] else [c].

(** Every special character stands right after a backslash;
    [after_backslash] tells whether the text itself does. *)
Fixpoint specials_escaped (after_backslash : bool) (s : str) : bool :=
  match s with
  | [] => true
  | c :: s' =>
    (negb (is_special c) || after_backslash)
    && specials_escaped (c =? 92) s'
  end.

Local Close Scope N_scope.

(** A text that [strip] leaves as it is. *)
Definition trimmed (s : str) : Prop := strip s = s.

(** A field of a metadata line as it is written back: trimmed, not
    empty, on one line and without a star. *)
Definition meta_field (s : str) : Prop :=
  trimmed s /\ s <> [] /\ contains (lit "*") s = false /\ no_nl s = true.

(** A line the scanning loop passes over: blank, a rule, or text that is
    neither heading nor bullet. *)
Definition plain_line (l : str) : bool :=
  match kind_of (strip l) with
  | Blank | Other => true
  | _ => false
  end.

(** The lines that are not blank. *)
Definition compact (lines : list str) : list str :=
  filter (fun l => negb (is_blank l)) lines.

(** In a buffer, every section title line is directly followed by the
    line that opens the sub-list. *)
Fixpoint sections_opened (ls : list str) : bool :=
  match ls with
  | [] => true
  | l :: ls' =>
    (if has_section [l]
     then match ls' with
          | l2 :: _ => str_eqb l2 SUB_LIST_START
          | [] => false
          end
     else true)
    && sections_opened ls'
  end.

(** * Properties *)

(** ** Inline formatter *)

(** C3: [fmt] escapes before it substitutes markup, and on a bold span
    holding an ampersand it returns the bold command around the escaped
    ampersand; the bold markers themselves are left alone by the escape. *)
Theorem fmt_escapes_before_markup :
  (forall t, fmt t = fmt_markup (escape_tex t)) /\
  escape_tex (lit "**a&b**") = lit "**a\&b**" /\
  fmt (lit "**a&b**") = lit "\textbf{a\&b}".
Proof.
  split; [reflexivity|]. split; vm_compute; reflexivity.
Qed.

(** ** Heading parsers *)

Lemma split_first_none (seps : list str) (text : str) :
  (forall sep, In sep seps -> contains sep text = false) ->
  split_first seps text = (text, []).
Proof.
  induction seps as [|sep seps IH]; intros H; simpl; [reflexivity|].
  assert (Hs : contains sep text = false) by (apply H; left; reflexivity).
  unfold contains in Hs.
  destruct (find_split sep text) as [[a b]|]; [discriminate|].
  apply IH. intros s Hin. apply H. right. exact Hin.
Qed.

Lemma split_first_priority (pre : list str) (sep : str) (post : list str)
      (text a b : str) :
  (forall s, In s pre -> contains s text = false) ->
  find_split sep text = Some (a, b) ->
  split_first (pre ++ sep :: post) text = (strip a, strip b).
Proof.
  induction pre as [|s pre IH]; intros Hpre Hsep; simpl.
  - rewrite Hsep. reflexivity.
  - assert (Hs : contains s text = false) by (apply Hpre; left; reflexivity).
    unfold contains in Hs.
    destruct (find_split s text) as [[x y]|]; [discriminate|].
    apply IH; [|exact Hsep]. intros s' Hin. apply Hpre. right. exact Hin.
Qed.

(** C4: the three dash forms of the heading split into the same pair, a
    heading text holding none of the separators is returned whole with an
    empty second part, and in general the first separator of the list that
    occurs in the text decides the split. *)
Theorem parse_heading3_separators (line : str) :
  (parse_heading3 (lit "### A — B") = (lit "A", lit "B") /\
   parse_heading3 (lit "### A -- B") = (lit "A", lit "B") /\
   parse_heading3 (lit "### A—B") = (lit "A", lit "B")) /\
  ((forall sep, In sep heading_seps ->
                contains sep (heading_text line) = false) ->
   parse_heading3 line = (heading_text line, [])) /\
  (forall pre sep post a b,
     heading_seps = pre ++ sep :: post ->
     (forall s, In s pre -> contains s (heading_text line) = false) ->
     find_split sep (heading_text line) = Some (a, b) ->
     parse_heading3 line = (strip a, strip b)).
Proof.
  split; [repeat split; vm_compute; reflexivity|]. split.
  - intros H. unfold parse_heading3. apply split_first_none. exact H.
  - intros pre sep post a b Hseps Hpre Hsep. unfold parse_heading3.
    rewrite Hseps. apply split_first_priority; assumption.
Qed.

Lemma parse_heading3_separators_witness :
  (forall sep, In sep heading_seps ->
               contains sep (heading_text (lit "### Acme Corp")) = false) /\
  parse_heading3 (lit "### Acme Corp") = (lit "Acme Corp", []) /\
  parse_heading3 (lit "### Acme -- Dev — Ops") = (lit "Acme -- Dev", lit "Ops").
Proof.
  assert (H : forall sep, In sep heading_seps ->
               contains sep (heading_text (lit "### Acme Corp")) = false).
  { intros sep Hin. simpl in Hin.
    destruct Hin as [<-|[<-|[<-|[<-|[]]]]]; vm_compute; reflexivity. }
  split; [exact H|]. split.
  - exact (proj1 (proj2 (parse_heading3_separators (lit "### Acme Corp"))) H).
  - apply (proj2 (proj2 (parse_heading3_separators
                           (lit "### Acme -- Dev — Ops")))
             [] (lit " — ") [lit " -- "; lit " \textemdash "; [em_dash]]
             (lit "Acme -- Dev") (lit "Ops")).
    + reflexivity.
    + intros s [].
    + vm_compute. reflexivity.
Defined.

(** ** Close protocol *)

Lemma close_items_closed (st : state) :
  item_list_open st = false -> close_items st = st.
Proof. intros H. unfold close_items. rewrite H. reflexivity. Qed.

Lemma close_items_flag (st : state) :
  item_list_open (close_items st) = false.
Proof.
  unfold close_items. destruct (item_list_open st) eqn:E; [reflexivity|exact E].
Qed.

Lemma close_items_sub (st : state) :
  sub_list_open (close_items st) = sub_list_open st.
Proof. unfold close_items. destruct (item_list_open st); reflexivity. Qed.

Lemma close_sublist_flags (st : state) :
  item_list_open (close_sublist st) = false /\
  sub_list_open (close_sublist st) = false.
Proof.
  unfold close_sublist.
  destruct (sub_list_open (close_items st)) eqn:E; simpl.
  - split; [apply close_items_flag|reflexivity].
  - split; [apply close_items_flag|exact E].
Qed.

Lemma close_sublist_closed (st : state) :
  item_list_open st = false -> sub_list_open st = false ->
  close_sublist st = st.
Proof.
  intros Hi Hs. unfold close_sublist.
  rewrite (close_items_closed st Hi), Hs. reflexivity.
Qed.

(** C9 (as amended): both close operations are idempotent from every
    state; [close_items] does nothing when the item list is closed, and
    [close_sublist] does nothing when both lists are closed. *)
Theorem close_idempotent (st : state) :
  close_items (close_items st) = close_items st /\
  close_sublist (close_sublist st) = close_sublist st /\
  (item_list_open st = false -> close_items st = st) /\
  (item_list_open st = false -> sub_list_open st = false ->
   close_sublist st = st).
Proof.
  split; [apply close_items_closed, close_items_flag|].
  split; [apply close_sublist_closed; apply close_sublist_flags|].
  split; [apply close_items_closed|apply close_sublist_closed].
Qed.

Lemma close_idempotent_witness :
  let st := mkState 3 [lit "x"] false false [] in
  item_list_open st = false /\ sub_list_open st = false /\
  close_items st = st /\ close_sublist st = st.
Proof.
  intros st. split; [reflexivity|]. split; [reflexivity|]. split.
  - apply (proj1 (proj2 (proj2 (close_idempotent st)))). reflexivity.
  - apply (proj2 (proj2 (proj2 (close_idempotent st)))); reflexivity.
Defined.

(** C9, as stated, fails: after the one-line document of a bullet the
    sub-list flag is false, yet [close_sublist] closes the open item list
    and emits its directive. *)
Lemma close_sublist_not_safe :
  let st := scanned keep_case [lit "- a"] in
  sub_list_open st = false /\
  out (close_sublist st) = out st ++ [ITEM_LIST_END] /\
  close_sublist st <> st.
Proof.
  intros st. split; [vm_compute; reflexivity|].
  split; [vm_compute; reflexivity|].
  intros H. apply (f_equal item_list_open) in H. vm_compute in H.
  discriminate.
Qed.

(** ** Blank-line lookahead *)

Lemma skip_blank_from_bounds (ls : list str) (j : nat) :
  j <= skip_blank_from ls j <= j + List.length ls.
Proof.
  revert j. induction ls as [|l ls IH]; intros j; simpl; [lia|].
  destruct (is_blank l); [|lia]. specialize (IH (S j)). lia.
Qed.

Lemma skip_blank_from_blank (ls : list str) (j k : nat) :
  j + k < skip_blank_from ls j -> is_blank (nth k ls []) = true.
Proof.
  revert j k. induction ls as [|l ls IH]; intros j k; simpl; [lia|].
  destruct (is_blank l) eqn:E; [|lia].
  destruct k as [|k]; [intros _; exact E|].
  intros H. apply (IH (S j) k). lia.
Qed.

Lemma skip_blank_from_stop (ls : list str) (j : nat) :
  skip_blank_from ls j < j + List.length ls ->
  is_blank (nth (skip_blank_from ls j - j) ls []) = false.
Proof.
  revert j. induction ls as [|l ls IH]; intros j; simpl; [lia|].
  destruct (is_blank l) eqn:E.
  - intros H. pose proof (skip_blank_from_bounds ls (S j)) as B.
    replace (skip_blank_from ls (S j) - j)
      with (S (skip_blank_from ls (S j) - S j)) by lia.
    apply IH. lia.
  - intros _. rewrite Nat.sub_diag. exact E.
Qed.

Lemma nth_skipn_str (j k : nat) (ls : list str) :
  nth k (skipn j ls) [] = nth (j + k) ls [].
Proof.
  revert ls. induction j as [|j IH]; intros ls; [reflexivity|].
  destruct ls as [|l ls]; simpl; [destruct k; reflexivity|apply IH].
Qed.

Lemma skip_blank_ge (ls : list str) (j : nat) : j <= skip_blank ls j.
Proof. unfold skip_blank. apply skip_blank_from_bounds. Qed.

Lemma skip_blank_le (ls : list str) (j : nat) :
  j <= List.length ls -> skip_blank ls j <= List.length ls.
Proof.
  intros H. unfold skip_blank.
  pose proof (skip_blank_from_bounds (skipn j ls) j) as B.
  rewrite length_skipn in B. lia.
Qed.

Lemma skip_blank_between (ls : list str) (j k : nat) :
  j <= k < skip_blank ls j -> is_blank (nth k ls []) = true.
Proof.
  intros [H1 H2]. unfold skip_blank in H2.
  replace k with (j + (k - j)) by lia. rewrite <- nth_skipn_str.
  apply (skip_blank_from_blank _ j). replace (j + (k - j)) with k by lia.
  exact H2.
Qed.

Lemma skip_blank_stop (ls : list str) (j : nat) :
  skip_blank ls j < List.length ls ->
  is_blank (nth (skip_blank ls j) ls []) = false.
Proof.
  intros H. pose proof (skip_blank_ge ls j) as G. unfold skip_blank in *.
  replace (skip_blank_from (skipn j ls) j)
    with (j + (skip_blank_from (skipn j ls) j - j)) at 1 by lia.
  rewrite <- nth_skipn_str. apply skip_blank_from_stop.
  rewrite length_skipn. lia.
Qed.

(** ** Strings *)













Lemma dropwhile_head (p : N -> bool) (s : str) :
  match dropwhile p s with [] => True | c :: _ => p c = false end.
Proof.
  induction s as [|x s IH]; simpl; [exact I|].
  destruct (p x) eqn:E; [exact IH|exact E].
Qed.

Lemma dropwhile_suffix (p : N -> bool) (s : str) :
  exists t, s = t ++ dropwhile p s.
Proof.
  induction s as [|x s [t IH]]; simpl; [exists []; reflexivity|].
  destruct (p x).
  - exists (x :: t). simpl. rewrite <- IH. reflexivity.
  - exists []. reflexivity.
Qed.

Lemma rstrip_prefix (s : str) : exists t, s = rstrip s ++ t.
Proof.
  unfold rstrip. destruct (dropwhile_suffix is_space (rev s)) as [t E].
  exists (rev t). rewrite <- rev_app_distr, <- E, rev_involutive.
  reflexivity.
Qed.

(** A trimmed text does not start with white space. *)
Lemma strip_head (l : str) :
  match strip l with [] => True | c :: _ => is_space c = false end.
Proof.
  unfold strip. destruct (rstrip_prefix (lstrip l)) as [t E].
  pose proof (dropwhile_head is_space l) as H. fold (lstrip l) in H.
  destruct (rstrip (lstrip l)) as [|c r]; [exact I|].
  rewrite E in H. exact H.
Qed.



(** ** The fuel of [re_sub]

    Every match consumes at least one character, so a fuel of the length
    of the text is never used up. *)

Lemma strip_prefix_length (pre s r : str) :
  strip_prefix pre s = Some r ->
  List.length s = List.length pre + List.length r.
Proof.
  revert s. induction pre as [|x pre IH]; intros s E; simpl in E.
  - injection E. intros <-. reflexivity.
  - destruct s as [|y s]; [discriminate|].
    destruct (N.eqb x y); [|discriminate].
    simpl. rewrite (IH s E). reflexivity.
Qed.

Lemma lazy_group_length (delim s g r : str) :
  lazy_group delim s = Some (g, r) -> List.length r < List.length s.
Proof.
  revert g. induction s as [|x s IH]; intros g E; simpl in E;
    [discriminate|].
  destruct (N.eqb x nl); [discriminate|].
  destruct (strip_prefix delim s) as [rest|] eqn:P.
  - injection E. intros <- _. apply strip_prefix_length in P. simpl. lia.
  - destruct (lazy_group delim s) as [[g' r']|]; [|discriminate].
    injection E. intros <- _. specialize (IH g' eq_refl). simpl. lia.
Qed.

Lemma link_groups_length (s g1 g2 r : str) :
  link_groups s = Some (g1, g2, r) -> List.length r < List.length s.
Proof.
  revert g1. induction s as [|x s IH]; intros g1 E; [discriminate|].
  cbn [link_groups] in E.
  destruct (N.eqb x nl); [discriminate|].
  destruct (link_tail s) as [[g2' rest]|] eqn:P.
  - injection E. intros <- _ _. unfold link_tail in P.
    destruct (strip_prefix _ s) as [r0|] eqn:Q; [|discriminate].
    apply strip_prefix_length in Q. apply lazy_group_length in P.
    simpl. lia.
  - destruct (link_groups s) as [[[g1' g2'] r']|]; [|discriminate].
    injection E. intros <- <- <-. specialize (IH g1' eq_refl). simpl. lia.
Qed.

Lemma re_sub_fuel (pat : str -> option (str * str)) :
  (forall s repl rest, pat s = Some (repl, rest) ->
                       List.length rest < List.length s) ->
  forall f1 f2 s,
    List.length s <= f1 -> List.length s <= f2 ->
    re_sub pat f1 s = re_sub pat f2 s.
Proof.
  intros Hpat. induction f1 as [|f1 IH]; intros f2 s H1 H2.
  - destruct s; [|simpl in H1; lia]. destruct f2; reflexivity.
  - destruct s as [|x s]; [destruct f2; reflexivity|].
    destruct f2 as [|f2]; [simpl in H2; lia|]. simpl in H1, H2.
    simpl. destruct (pat (x :: s)) as [[repl rest]|] eqn:E.
    + apply Hpat in E. simpl in E. f_equal. apply IH; lia.
    + f_equal. apply IH; lia.
Qed.

Lemma pat_bold_consumes (s repl rest : str) :
  pat_bold s = Some (repl, rest) -> List.length rest < List.length s.
Proof.
  unfold pat_bold. intros E.
  destruct (strip_prefix _ s) as [t|] eqn:P; [|discriminate].
  destruct (lazy_group _ t) as [[g r]|] eqn:G; [|discriminate].
  injection E. intros <- _.
  apply strip_prefix_length in P. apply lazy_group_length in G. lia.
Qed.

Lemma pat_italic_consumes (s repl rest : str) :
  pat_italic s = Some (repl, rest) -> List.length rest < List.length s.
Proof.
  unfold pat_italic. intros E.
  destruct (strip_prefix _ s) as [t|] eqn:P; [|discriminate].
  destruct (lazy_group _ t) as [[g r]|] eqn:G; [|discriminate].
  injection E. intros <- _.
  apply strip_prefix_length in P. apply lazy_group_length in G. lia.
Qed.

Lemma pat_link_consumes (s repl rest : str) :
  pat_link s = Some (repl, rest) -> List.length rest < List.length s.
Proof.
  unfold pat_link. intros E.
  destruct (strip_prefix _ s) as [t|] eqn:P; [|discriminate].
  destruct (link_groups t) as [[[g1 g2] r]|] eqn:G; [|discriminate].
  injection E. intros <- _.
  apply strip_prefix_length in P. apply link_groups_length in G. lia.
Qed.

(** The three substitutions of [fmt] are those of an unbounded scan: any
    larger fuel gives the same text. *)
Lemma fmt_fuel_enough (t : str) (extra : nat) :
  re_sub pat_bold (List.length t + extra) t
  = re_sub pat_bold (List.length t) t /\
  re_sub pat_italic (List.length t + extra) t
  = re_sub pat_italic (List.length t) t /\
  re_sub pat_link (List.length t + extra) t
  = re_sub pat_link (List.length t) t.
Proof.
  split; [|split].
  - apply (re_sub_fuel _ pat_bold_consumes); lia.
  - apply (re_sub_fuel _ pat_italic_consumes); lia.
  - apply (re_sub_fuel _ pat_link_consumes); lia.
Qed.

(** ** What the string functions keep

    The functions that cut a text return parts of it, and those that
    rewrite it add fixed literals: a property of all characters of the
    input and of the literals holds of the result. *)

Section Keep.

Variable p : N -> bool.

Local Abbreviation ok s := (forallb p s = true).

Lemma dropwhile_keep (q : N -> bool) (s : str) :
  ok s -> ok (dropwhile q s).
Proof.
  induction s as [|x s IH]; simpl; [reflexivity|].
  intros H. destruct (q x); [|exact H].
  apply andb_prop in H. apply IH, H.
Qed.

Lemma rev_keep (s : str) : ok s -> ok (rev s).
Proof.
  rewrite !forallb_forall. intros H x Hx. apply H, in_rev, Hx.
Qed.

Lemma strip_keep (s : str) : ok s -> ok (strip s).
Proof.
  intros H. unfold strip, rstrip, lstrip.
  apply rev_keep, dropwhile_keep, rev_keep, dropwhile_keep, H.
Qed.

Lemma lstrip_keep (s : str) : ok s -> ok (lstrip s).
Proof. apply dropwhile_keep. Qed.

Lemma skipn_keep (n : nat) (s : str) : ok s -> ok (skipn n s).
Proof.
  revert s. induction n as [|n IH]; intros s H; [exact H|].
  destruct s as [|x s]; [reflexivity|].
  simpl in H. apply andb_prop in H. apply IH, H.
Qed.

Lemma strip_prefix_keep (pre s r : str) :
  strip_prefix pre s = Some r -> ok s -> ok r.
Proof.
  revert s. induction pre as [|x pre IH]; intros s E H; simpl in E.
  - injection E. intros <-. exact H.
  - destruct s as [|y s]; [discriminate|].
    destruct (N.eqb x y); [|discriminate].
    simpl in H. apply andb_prop in H. apply (IH s E), H.
Qed.

Lemma find_split_keep (sep s a b : str) :
  find_split sep s = Some (a, b) -> ok s -> ok a /\ ok b.
Proof.
  revert a. induction s as [|x s IH]; intros a E H; simpl in E.
  - destruct (strip_prefix sep []) as [r|] eqn:P; [|discriminate].
    injection E. intros <- <-. split; [reflexivity|].
    apply (strip_prefix_keep _ _ _ P H).
  - destruct (strip_prefix sep (x :: s)) as [r|] eqn:P.
    + injection E. intros <- <-. split; [reflexivity|].
      apply (strip_prefix_keep _ _ _ P H).
    + destruct (find_split sep s) as [[a' b']|]; [|discriminate].
      injection E. intros <- <-.
      simpl in H. apply andb_prop in H. destruct H as [Hx Hs].
      destruct (IH a' eq_refl Hs) as [Ha Hb].
      split; [simpl; rewrite Hx; exact Ha|exact Hb].
Qed.

Lemma lazy_group_keep (delim s g r : str) :
  lazy_group delim s = Some (g, r) -> ok s -> ok g /\ ok r.
Proof.
  revert g. induction s as [|x s IH]; intros g E H; simpl in E;
    [discriminate|].
  destruct (N.eqb x nl); [discriminate|].
  simpl in H. apply andb_prop in H. destruct H as [Hx Hs].
  destruct (strip_prefix delim s) as [rest|] eqn:P.
  - injection E. intros <- <-.
    split; [simpl; rewrite Hx; reflexivity|].
    apply (strip_prefix_keep _ _ _ P Hs).
  - destruct (lazy_group delim s) as [[g' r']|]; [|discriminate].
    injection E. intros <- <-.
    destruct (IH g' eq_refl Hs) as [Hg Hr].
    split; [simpl; rewrite Hx; exact Hg|exact Hr].
Qed.

Lemma link_groups_keep (s g1 g2 r : str) :
  link_groups s = Some (g1, g2, r) -> ok s -> ok g1 /\ ok g2 /\ ok r.
Proof.
  revert g1. induction s as [|x s IH]; intros g1 E H; [discriminate|].
  cbn [link_groups] in E.
  destruct (N.eqb x nl); [discriminate|].
  simpl in H. apply andb_prop in H. destruct H as [Hx Hs].
  destruct (link_tail s) as [[g2' rest]|] eqn:P.
  - injection E. intros <- <- <-. unfold link_tail in P.
    destruct (strip_prefix _ s) as [r0|] eqn:Q; [|discriminate].
    destruct (lazy_group_keep _ _ _ _ P (strip_prefix_keep _ _ _ Q Hs))
      as [Hg Hr].
    split; [simpl; rewrite Hx; reflexivity|]. split; assumption.
  - destruct (link_groups s) as [[[g1' g2'] r']|]; [|discriminate].
    injection E. intros <- <- <-.
    destruct (IH g1' eq_refl Hs) as [H1 [H2 Hr]].
    split; [simpl; rewrite Hx; exact H1|]. split; assumption.
Qed.

Lemma replace1_keep (c : N) (new s : str) :
  ok new -> ok s -> ok (replace1 c new s).
Proof.
  intros Hn. induction s as [|x s IH]; simpl; [reflexivity|].
  intros H. apply andb_prop in H. destruct H as [Hx Hs].
  destruct (N.eqb x c).
  - rewrite forallb_app, Hn. apply IH, Hs.
  - simpl. rewrite Hx. apply IH, Hs.
Qed.

Lemma re_sub_keep (pat : str -> option (str * str)) :
  (forall s repl rest, pat s = Some (repl, rest) -> ok s ->
                       ok repl /\ ok rest) ->
  forall fuel s, ok s -> ok (re_sub pat fuel s).
Proof.
  intros Hpat. induction fuel as [|f IH]; intros s H; simpl; [exact H|].
  destruct s as [|x s]; [reflexivity|].
  destruct (pat (x :: s)) as [[repl rest]|] eqn:E.
  - destruct (Hpat _ _ _ E H) as [H1 H2].
    rewrite forallb_app, H1. apply IH, H2.
  - simpl in H |- *. apply andb_prop in H. destruct H as [Hx Hs].
    rewrite Hx. apply IH, Hs.
Qed.

Lemma upto_nl_keep (s : str) : ok s -> ok (upto_nl s).
Proof.
  induction s as [|x s IH]; simpl; [reflexivity|].
  intros H. apply andb_prop in H. destruct H as [Hx Hs].
  destruct (N.eqb x nl); [reflexivity|]. simpl. rewrite Hx. apply IH, Hs.
Qed.

Lemma split_first_keep (seps : list str) (text : str) :
  ok text ->
  ok (fst (split_first seps text)) /\ ok (snd (split_first seps text)).
Proof.
  intros H. induction seps as [|sep seps IH]; simpl.
  - split; [exact H|reflexivity].
  - destruct (find_split sep text) as [[a b]|] eqn:E; [|exact IH].
    destruct (find_split_keep _ _ _ _ E H) as [Ha Hb].
    split; apply strip_keep; assumption.
Qed.

End Keep.

(** ** Reading the output buffer *)



Lemma has_section_app (a b : list str) :
  has_section (a ++ b) = has_section a || has_section b.
Proof. unfold has_section. apply existsb_app. Qed.


Lemma goto_i (k : nat) (st : state) : i (goto k st) = k.
Proof. reflexivity. Qed.

Lemma goto_out (k : nat) (st : state) : out (goto k st) = out st.
Proof. reflexivity. Qed.

Lemma goto_item (k : nat) (st : state) :
  item_list_open (goto k st) = item_list_open st.
Proof. reflexivity. Qed.

Lemma goto_sub (k : nat) (st : state) :
  sub_list_open (goto k st) = sub_list_open st.
Proof. reflexivity. Qed.

Lemma goto_section (k : nat) (st : state) :
  current_section (goto k st) = current_section st.
Proof. reflexivity. Qed.

Lemma emit_i (l : str) (st : state) : i (emit l st) = i st.
Proof. reflexivity. Qed.

Lemma emit_out (l : str) (st : state) : out (emit l st) = out st ++ [l].
Proof. reflexivity. Qed.

Lemma emit_item (l : str) (st : state) :
  item_list_open (emit l st) = item_list_open st.
Proof. reflexivity. Qed.

Lemma emit_sub (l : str) (st : state) :
  sub_list_open (emit l st) = sub_list_open st.
Proof. reflexivity. Qed.

Lemma emit_section (l : str) (st : state) :
  current_section (emit l st) = current_section st.
Proof. reflexivity. Qed.

Lemma set_item_i (b : bool) (st : state) : i (set_item b st) = i st.
Proof. reflexivity. Qed.

Lemma set_item_out (b : bool) (st : state) : out (set_item b st) = out st.
Proof. reflexivity. Qed.

Lemma set_item_item (b : bool) (st : state) :
  item_list_open (set_item b st) = b.
Proof. reflexivity. Qed.

Lemma set_item_sub (b : bool) (st : state) :
  sub_list_open (set_item b st) = sub_list_open st.
Proof. reflexivity. Qed.

Lemma set_item_section (b : bool) (st : state) :
  current_section (set_item b st) = current_section st.
Proof. reflexivity. Qed.

Lemma set_sub_i (b : bool) (st : state) : i (set_sub b st) = i st.
Proof. reflexivity. Qed.

Lemma set_sub_out (b : bool) (st : state) : out (set_sub b st) = out st.
Proof. reflexivity. Qed.

Lemma set_sub_item (b : bool) (st : state) :
  item_list_open (set_sub b st) = item_list_open st.
Proof. reflexivity. Qed.

Lemma set_sub_sub (b : bool) (st : state) : sub_list_open (set_sub b st) = b.
Proof. reflexivity. Qed.

Lemma set_sub_section (b : bool) (st : state) :
  current_section (set_sub b st) = current_section st.
Proof. reflexivity. Qed.

Lemma set_section_i (s : str) (st : state) : i (set_section s st) = i st.
Proof. reflexivity. Qed.

Lemma set_section_out (s : str) (st : state) :
  out (set_section s st) = out st.
Proof. reflexivity. Qed.

Lemma set_section_item (s : str) (st : state) :
  item_list_open (set_section s st) = item_list_open st.
Proof. reflexivity. Qed.

Lemma set_section_sub (s : str) (st : state) :
  sub_list_open (set_section s st) = sub_list_open st.
Proof. reflexivity. Qed.

Lemma set_section_section (s : str) (st : state) :
  current_section (set_section s st) = s.
Proof. reflexivity. Qed.

Lemma emits_nil (st : state) : emits [] st = st.
Proof. reflexivity. Qed.

Lemma emits_cons (l : str) (ls : list str) (st : state) :
  emits (l :: ls) st = emits ls (emit l st).
Proof. reflexivity. Qed.

Lemma emits_out (ls : list str) (st : state) :
  out (emits ls st) = out st ++ ls.
Proof.
  revert st. induction ls as [|l ls IH]; intros st.
  - rewrite emits_nil, app_nil_r. reflexivity.
  - rewrite emits_cons, IH, emit_out, <- app_assoc. reflexivity.
Qed.

Lemma emits_i (ls : list str) (st : state) : i (emits ls st) = i st.
Proof.
  revert st. induction ls as [|l ls IH]; intros st; [reflexivity|].
  rewrite emits_cons, IH. reflexivity.
Qed.

Lemma emits_item (ls : list str) (st : state) :
  item_list_open (emits ls st) = item_list_open st.
Proof.
  revert st. induction ls as [|l ls IH]; intros st; [reflexivity|].
  rewrite emits_cons, IH. reflexivity.
Qed.

Lemma emits_sub (ls : list str) (st : state) :
  sub_list_open (emits ls st) = sub_list_open st.
Proof.
  revert st. induction ls as [|l ls IH]; intros st; [reflexivity|].
  rewrite emits_cons, IH. reflexivity.
Qed.

Lemma emits_section (ls : list str) (st : state) :
  current_section (emits ls st) = current_section st.
Proof.
  revert st. induction ls as [|l ls IH]; intros st; [reflexivity|].
  rewrite emits_cons, IH. reflexivity.
Qed.

Lemma close_items_i (st : state) : i (close_items st) = i st.
Proof. unfold close_items. destruct (item_list_open st); reflexivity. Qed.

Lemma close_items_section (st : state) :
  current_section (close_items st) = current_section st.
Proof. unfold close_items. destruct (item_list_open st); reflexivity. Qed.

Lemma close_items_out (st : state) :
  out (close_items st) =
  out st ++ (if item_list_open st then [ITEM_LIST_END] else []).
Proof.
  unfold close_items. destruct (item_list_open st).
  - reflexivity.
  - rewrite app_nil_r. reflexivity.
Qed.

Lemma close_sublist_i (st : state) : i (close_sublist st) = i st.
Proof.
  unfold close_sublist. destruct (sub_list_open (close_items st));
    [rewrite set_sub_i, emit_i|]; apply close_items_i.
Qed.

Lemma close_sublist_out (st : state) :
  out (close_sublist st) =
  out st ++ (if item_list_open st then [ITEM_LIST_END] else [])
         ++ (if sub_list_open st then [SUB_LIST_END] else []).
Proof.
  unfold close_sublist. rewrite close_items_sub.
  destruct (sub_list_open st).
  - rewrite set_sub_out, emit_out, close_items_out, <- app_assoc.
    reflexivity.
  - rewrite app_nil_r. apply close_items_out.
Qed.

Create Rewrite HintDb state.

#[local] Hint Rewrite goto_i goto_out goto_item goto_sub goto_section
  emit_i emit_out emit_item emit_sub emit_section
  set_item_i set_item_out set_item_item set_item_sub set_item_section
  set_sub_i set_sub_out set_sub_item set_sub_sub set_sub_section
  set_section_i set_section_out set_section_item set_section_sub
  set_section_section
  emits_i emits_out emits_item emits_sub emits_section
  close_items_i close_items_sub close_items_section close_items_flag
  close_sublist_i : state.



Lemma goto_same (st : state) : goto (i st) st = st.
Proof. destruct st. reflexivity. Qed.

Lemma goto_goto (j k : nat) (st : state) : goto j (goto k st) = goto j st.
Proof. reflexivity. Qed.

Lemma blank_kind (l : str) : is_blank l = true -> kind_of (strip l) = Blank.
Proof.
  unfold is_blank. destruct (strip l); [reflexivity|discriminate].
Qed.

(** ** Emitted lines hold no newline *)

Lemma no_nl_app (a b : str) : no_nl (a ++ b) = no_nl a && no_nl b.
Proof. apply forallb_app. Qed.

Lemma no_nl_cons (x : N) (s : str) :
  no_nl (x :: s) = negb (N.eqb x nl) && no_nl s.
Proof. reflexivity. Qed.

Lemma strip_prefix_no_nl (pre s r : str) :
  strip_prefix pre s = Some r -> no_nl s = true -> no_nl r = true.
Proof. apply strip_prefix_keep. Qed.

Lemma lazy_group_no_nl (delim s g r : str) :
  lazy_group delim s = Some (g, r) -> no_nl s = true ->
  no_nl g = true /\ no_nl r = true.
Proof. apply lazy_group_keep. Qed.

Lemma link_groups_no_nl (s g1 g2 r : str) :
  link_groups s = Some (g1, g2, r) -> no_nl s = true ->
  no_nl g1 = true /\ no_nl g2 = true /\ no_nl r = true.
Proof. apply link_groups_keep. Qed.

Lemma find_split_no_nl (sep s a b : str) :
  find_split sep s = Some (a, b) -> no_nl s = true ->
  no_nl a = true /\ no_nl b = true.
Proof. apply find_split_keep. Qed.

Lemma lstrip_no_nl (s : str) : no_nl s = true -> no_nl (lstrip s) = true.
Proof. apply lstrip_keep. Qed.

Lemma strip_no_nl (s : str) : no_nl s = true -> no_nl (strip s) = true.
Proof. apply strip_keep. Qed.

Lemma skipn_no_nl (n : nat) (s : str) :
  no_nl s = true -> no_nl (skipn n s) = true.
Proof. apply skipn_keep. Qed.

Lemma escape_tex_no_nl (t : str) :
  no_nl t = true -> no_nl (escape_tex t) = true.
Proof.
  intros H. unfold escape_tex. cbv zeta.
  repeat (apply replace1_keep; [reflexivity|]). exact H.
Qed.

Lemma pat_bold_no_nl (s repl rest : str) :
  pat_bold s = Some (repl, rest) -> no_nl s = true ->
  no_nl repl = true /\ no_nl rest = true.
Proof.
  unfold pat_bold. intros E H.
  destruct (strip_prefix _ s) as [t|] eqn:P; [|discriminate].
  destruct (lazy_group _ t) as [[g r]|] eqn:G; [|discriminate].
  injection E. intros <- <-.
  destruct (lazy_group_no_nl _ _ _ _ G (strip_prefix_no_nl _ _ _ P H))
    as [Hg Hr].
  split; [|exact Hr].
  repeat (rewrite no_nl_cons || rewrite no_nl_app). rewrite Hg.
  reflexivity.
Qed.

Lemma pat_italic_no_nl (s repl rest : str) :
  pat_italic s = Some (repl, rest) -> no_nl s = true ->
  no_nl repl = true /\ no_nl rest = true.
Proof.
  unfold pat_italic. intros E H.
  destruct (strip_prefix _ s) as [t|] eqn:P; [|discriminate].
  destruct (lazy_group _ t) as [[g r]|] eqn:G; [|discriminate].
  injection E. intros <- <-.
  destruct (lazy_group_no_nl _ _ _ _ G (strip_prefix_no_nl _ _ _ P H))
    as [Hg Hr].
  split; [|exact Hr].
  repeat (rewrite no_nl_cons || rewrite no_nl_app). rewrite Hg.
  reflexivity.
Qed.

Lemma pat_link_no_nl (s repl rest : str) :
  pat_link s = Some (repl, rest) -> no_nl s = true ->
  no_nl repl = true /\ no_nl rest = true.
Proof.
  unfold pat_link. intros E H.
  destruct (strip_prefix _ s) as [t|] eqn:P; [|discriminate].
  destruct (link_groups t) as [[[g1 g2] r]|] eqn:G; [|discriminate].
  injection E. intros <- <-.
  destruct (link_groups_no_nl _ _ _ _ G (strip_prefix_no_nl _ _ _ P H))
    as [H1 [H2 Hr]].
  split; [|exact Hr].
  repeat (rewrite no_nl_cons || rewrite no_nl_app). rewrite H1, H2.
  reflexivity.
Qed.

Lemma fmt_no_nl (t : str) : no_nl t = true -> no_nl (fmt t) = true.
Proof.
  intros H. unfold fmt, fmt_markup. cbv zeta.
  repeat (apply replace1_keep; [reflexivity|]).
  apply (re_sub_keep _ _ pat_link_no_nl).
  apply (re_sub_keep _ _ pat_italic_no_nl).
  apply (re_sub_keep _ _ pat_bold_no_nl).
  apply escape_tex_no_nl, H.
Qed.

Lemma parse_heading3_no_nl (L : str) :
  no_nl L = true ->
  no_nl (fst (parse_heading3 L)) = true /\
  no_nl (snd (parse_heading3 L)) = true.
Proof.
  intros H. unfold parse_heading3. apply split_first_keep.
  unfold heading_text, lstrip_char. apply strip_keep, dropwhile_keep, H.
Qed.

Lemma meta_tail_no_nl (s g : str) :
  meta_tail s = Some g -> no_nl s = true -> no_nl g = true.
Proof.
  unfold meta_tail. intros E H.
  pose proof (lstrip_no_nl s H) as H1.
  destruct (lstrip s) as [|c r]; [discriminate|].
  destruct (N.eqb c _); [|discriminate].
  rewrite no_nl_cons in H1. apply andb_prop in H1. destruct H1 as [_ H1].
  pose proof (lstrip_no_nl r H1) as H2.
  destruct (lstrip r) as [|c2 r2]; [discriminate|].
  destruct (N.eqb c2 _); [|discriminate].
  rewrite no_nl_cons in H2. apply andb_prop in H2. destruct H2 as [_ H2].
  destruct (lazy_group _ r2) as [[g' rest]|] eqn:G; [|discriminate].
  injection E. intros <-.
  apply (lazy_group_no_nl _ _ _ _ G H2).
Qed.

Lemma parse_meta_no_nl (l : str) :
  no_nl l = true ->
  let '(loc, dates, extra) := parse_meta l in
  no_nl loc = true /\ no_nl dates = true /\ no_nl extra = true.
Proof.
  intros H. unfold parse_meta. cbv zeta.
  pose proof (strip_no_nl _ H) as Hr.
  destruct (match_meta (strip l)) as [[g1 g2]|] eqn:M;
    [|repeat split].
  unfold match_meta in M.
  destruct (strip_prefix _ (strip l)) as [t|] eqn:P; [|discriminate].
  destruct (lazy_group _ t) as [[g rest]|] eqn:G; [|discriminate].
  injection M. intros <- <-.
  destruct (lazy_group_no_nl _ _ _ _ G (strip_prefix_no_nl _ _ _ P Hr))
    as [Hg Hrest].
  assert (He : no_nl match meta_tail rest with
                     | Some (c :: e) => strip (c :: e)
                     | _ => []
                     end = true).
  { destruct (meta_tail rest) as [[|c e]|] eqn:T; try reflexivity.
    apply strip_no_nl, (meta_tail_no_nl _ _ T Hrest). }
  pose proof (strip_no_nl _ Hg) as Hb.
  destruct (find_split _ (strip g)) as [[loc dates]|] eqn:F.
  - destruct (find_split_no_nl _ _ _ _ F Hb) as [H1 H2].
    split; [apply strip_no_nl, H1|]. split; [apply strip_no_nl, H2|exact He].
  - split; [reflexivity|]. split; [apply strip_no_nl, Hb|exact He].
Qed.

Lemma match_label_no_nl (text g1 g2 : str) :
  match_label text = Some (g1, g2) -> no_nl text = true ->
  no_nl g1 = true /\ no_nl g2 = true.
Proof.
  unfold match_label. intros E H.
  destruct (strip_prefix _ text) as [t|] eqn:P; [|discriminate].
  destruct (lazy_group _ t) as [[g rest]|] eqn:G; [|discriminate].
  destruct (lazy_group_no_nl _ _ _ _ G (strip_prefix_no_nl _ _ _ P H))
    as [Hg Hrest].
  cbv zeta in E.
  destruct (strip_prefix _ rest) as [r'|] eqn:Q;
    injection E; intros <- <-; (split; [exact Hg|]);
    apply upto_nl_keep, lstrip_no_nl.
  - apply (strip_prefix_no_nl _ _ _ Q Hrest).
  - exact Hrest.
Qed.

Lemma split_on_no_nl (s : str) :
  Forall (fun l => no_nl l = true) (split_on nl s).
Proof.
  induction s as [|x s IH]; simpl; [repeat constructor|].
  destruct (N.eqb x nl) eqn:E; [constructor; [reflexivity|exact IH]|].
  destruct (split_on nl s) as [|h t]; [repeat constructor; simpl; rewrite E; reflexivity|].
  inversion IH as [|? ? Hh Ht]. subst. constructor; [|exact Ht].
  simpl. rewrite E. exact Hh.
Qed.

Lemma split_on_whole (s : str) : no_nl s = true -> split_on nl s = [s].
Proof.
  induction s as [|x s IH]; simpl; [reflexivity|].
  intros H. apply andb_prop in H. destruct H as [Hx Hs].
  apply negb_true_iff in Hx. rewrite Hx, (IH Hs). reflexivity.
Qed.

Lemma split_on_app (a b : str) :
  split_on nl (a ++ nl :: b) = split_on nl a ++ split_on nl b.
Proof.
  induction a as [|x a IH]; [reflexivity|].
  simpl. destruct (N.eqb x nl); [rewrite IH; reflexivity|].
  rewrite IH. destruct (split_on nl a) as [|h t] eqn:E; [|reflexivity].
  exfalso. destruct a as [|y a]; simpl in E; [discriminate|].
  destruct (N.eqb y nl); [discriminate|].
  destruct (split_on nl a); discriminate.
Qed.

(** Splitting the joined buffer gives back its lines, the first one cut
    at its own newlines. *)
Lemma split_join (x : str) (ls : list str) :
  Forall (fun l => no_nl l = true) ls ->
  split_on nl (join [nl] (x :: ls)) = split_on nl x ++ ls.
Proof.
  revert x. induction ls as [|y ls IH]; intros x H.
  - simpl. rewrite app_nil_r. reflexivity.
  - inversion H as [|? ? Hy Hls]. subst.
    change (join [nl] (x :: y :: ls)) with (x ++ nl :: join [nl] (y :: ls)).
    rewrite split_on_app, (IH y Hls), (split_on_whole y Hy). reflexivity.
Qed.

Lemma grows_refl (st : state) : grows st st.
Proof. exists []. rewrite app_nil_r. split; [reflexivity|constructor]. Qed.

Lemma grows_trans (a b c : state) : grows a b -> grows b c -> grows a c.
Proof.
  intros [l1 [E1 F1]] [l2 [E2 F2]]. exists (l1 ++ l2).
  rewrite E2, E1, app_assoc. split; [reflexivity|].
  apply Forall_app. split; assumption.
Qed.

Lemma grows_same (a b : state) : out b = out a -> grows a b.
Proof.
  intros E. exists []. rewrite app_nil_r. split; [exact E|constructor].
Qed.

Lemma grows_goto (k : nat) (a b : state) : grows a b -> grows a (goto k b).
Proof. intros H. exact H. Qed.

Lemma grows_set_item (v : bool) (a b : state) :
  grows a b -> grows a (set_item v b).
Proof. intros H. exact H. Qed.

Lemma grows_set_sub (v : bool) (a b : state) :
  grows a b -> grows a (set_sub v b).
Proof. intros H. exact H. Qed.

Lemma grows_set_section (v : str) (a b : state) :
  grows a b -> grows a (set_section v b).
Proof. intros H. exact H. Qed.

Lemma grows_emits (ls : list str) (a b : state) :
  grows a b -> Forall (fun l => no_nl l = true) ls -> grows a (emits ls b).
Proof.
  intros H F. apply (grows_trans _ b); [exact H|].
  exists ls. split; [apply emits_out|exact F].
Qed.

Lemma grows_emit (l : str) (a b : state) :
  grows a b -> no_nl l = true -> grows a (emit l b).
Proof.
  intros H F. apply (grows_trans _ b); [exact H|].
  exists [l]. split; [reflexivity|]. constructor; [exact F|constructor].
Qed.

Lemma grows_close_items (a b : state) : grows a b -> grows a (close_items b).
Proof.
  intros H. unfold close_items. destruct (item_list_open b); [|exact H].
  apply grows_set_item, grows_emit; [exact H|reflexivity].
Qed.

Lemma grows_close_sublist (a b : state) :
  grows a b -> grows a (close_sublist b).
Proof.
  intros H. unfold close_sublist.
  destruct (sub_list_open (close_items b)).
  - apply grows_set_sub, grows_emit; [|reflexivity].
    apply grows_close_items, H.
  - apply grows_close_items, H.
Qed.

Lemma no_nl_app_intro (a b : str) :
  no_nl a = true -> no_nl b = true -> no_nl (a ++ b) = true.
Proof. intros Ha Hb. rewrite no_nl_app, Ha, Hb. reflexivity. Qed.

Lemma replace1_no_nl (c : N) (new s : str) :
  no_nl new = true -> no_nl s = true -> no_nl (replace1 c new s) = true.
Proof. apply replace1_keep. Qed.

Lemma line_no_nl (lines : list str) (k : nat) :
  Forall (fun l => no_nl l = true) lines -> no_nl (line lines k) = true.
Proof.
  intros H. unfold line. destruct (Nat.lt_ge_cases k (List.length lines)).
  - rewrite Forall_forall in H. apply H, nth_In. assumption.
  - rewrite nth_overflow by assumption. reflexivity.
Qed.

Create HintDb no_nl.

#[local] Hint Resolve no_nl_app_intro strip_no_nl skipn_no_nl
  escape_tex_no_nl fmt_no_nl line_no_nl replace1_no_nl : no_nl.
#[local] Hint Extern 0 (no_nl _ = true) => reflexivity : no_nl.

Section ScanProperties.

Variable unicode_lower : str -> str.
Variable lines : list str.

Local Abbreviation step := (step unicode_lower lines).
Local Abbreviation scan := (scan unicode_lower lines).
Local Abbreviation reachable := (reachable unicode_lower lines).

Local Abbreviation quiet := (quiet lines).

Ltac quiet_line :=
  split; [vm_compute; reflexivity|left; vm_compute; reflexivity].
Ltac quiet_lines :=
  repeat (apply Forall_cons; [quiet_line|]); apply Forall_nil.

Lemma meta_lookahead_next (k : nat) (role : str) :
  k < snd (meta_lookahead lines k role).
Proof.
  unfold meta_lookahead. cbv zeta.
  destruct (has_meta lines k).
  - destruct (parse_meta (line lines (skip_blank lines (S k)))) as [[loc dates] extra].
    simpl. pose proof (skip_blank_ge lines (S k)). lia.
  - simpl. lia.
Qed.

(** What each handler does to the cursor, the buffer and the flags. *)
Lemma handle_h1_shape (L : str) (st : state) :
  let st' := handle_h1 lines L st in
  let j := skip_blank lines (S (i st)) in
  i st < i st' /\
  (exists a b c d,
     out st'
     = out st
       ++ [a; b;
           contact_line (if j <? List.length lines
                         then fmt (strip (line lines j)) else []);
           c; d]
     /\ Forall quiet [a; b; c; d]) /\
  item_list_open st' = item_list_open st /\
  sub_list_open st' = sub_list_open st /\
  current_section st' = current_section st.
Proof.
  unfold handle_h1. cbv zeta. autorewrite with state.
  split; [pose proof (skip_blank_ge lines (S (i st))); lia|].
  split; [|repeat split]. do 4 eexists. split; [reflexivity|].
  quiet_lines.
Qed.

(** The contact line taken by a title line inside the input. *)
Lemma contact_quiet (t : nat) :
  t < List.length lines ->
  kind_of (strip (line lines t)) = H1 ->
  quiet (contact_line
           (if skip_blank lines (S t) <? List.length lines
            then fmt (strip (line lines (skip_blank lines (S t))))
            else [])).
Proof.
  intros Ht K. split; [vm_compute; reflexivity|].
  destruct (skip_blank lines (S t) <? List.length lines) eqn:E.
  - right. exists t. apply Nat.ltb_lt in E. repeat split; assumption.
  - left. vm_compute. reflexivity.
Qed.

Lemma handle_h1_quiet (st : state) :
  i st < List.length lines ->
  kind_of (strip (line lines (i st))) = H1 ->
  let st' := handle_h1 lines (strip (line lines (i st))) st in
  exists ls, out st' = out st ++ ls /\ Forall quiet ls.
Proof.
  intros Hi K st'.
  destruct (handle_h1_shape (strip (line lines (i st))) st)
    as [_ [[a [b [c [d [E Q]]]]] _]].
  eexists. split; [exact E|].
  inversion Q as [|? ? Qa Q1]. inversion Q1 as [|? ? Qb Q2]. subst.
  apply Forall_cons; [exact Qa|]. apply Forall_cons; [exact Qb|].
  apply Forall_cons; [apply contact_quiet; assumption|exact Q2].
Qed.

Lemma handle_h2_shape (L : str) (st : state) :
  let st' := handle_h2 unicode_lower L st in
  i st' = S (i st) /\
  (exists l, out st' = out (close_sublist st) ++ [l; SUB_LIST_START]
             /\ startswith (lit "\section{") l = true
             /\ classify l = None) /\
  item_list_open st' = false /\
  sub_list_open st' = true /\
  current_section st' = lower unicode_lower (strip (skipn 3 L)).
Proof.
  unfold handle_h2. cbv zeta. autorewrite with state.
  split; [reflexivity|]. split.
  - eexists. split; [rewrite <- app_assoc; reflexivity|].
    split; vm_compute; reflexivity.
  - split; [apply close_sublist_flags|]. split; reflexivity.
Qed.

Lemma handle_h3_shape (L : str) (st : state) :
  let st' := handle_h3 lines L st in
  i st < i st' /\
  (exists ls, out st' = out (close_items st) ++ ls
              /\ Forall quiet ls) /\
  item_list_open st' = false /\
  sub_list_open st' = sub_list_open st /\
  current_section st' = current_section st.
Proof.
  unfold handle_h3. cbv zeta.
  destruct (parse_heading3 L) as [company role].
  pose proof (meta_lookahead_next (i (close_items st)) (escape_tex role)) as N.
  destruct (meta_lookahead lines (i (close_items st)) (escape_tex role))
    as [[[loc dates] role'] next].
  simpl in N. rewrite close_items_i in N.
  rewrite goto_section.
  destruct (contains (lit "education") (current_section (close_items st)));
    [|destruct ((skip_blank lines next <? List.length lines)
                && startswith (lit "####") (strip (line lines (skip_blank lines next))))];
    autorewrite with state;
    (split; [exact N|]);
    (split; [eexists; split; [reflexivity|quiet_lines]|]);
    repeat split.
Qed.

Lemma handle_h4_shape (L : str) (st : state) :
  let st' := handle_h4 L st in
  i st' = S (i st) /\
  (exists ls, out st' = out (close_items st) ++ ls
              /\ Forall quiet ls) /\
  item_list_open st' = false /\
  sub_list_open st' = sub_list_open st /\
  current_section st' = current_section st.
Proof.
  unfold handle_h4. cbv zeta. autorewrite with state.
  split; [reflexivity|].
  split; [eexists; split; [reflexivity|quiet_lines]|].
  repeat split.
Qed.

Lemma handle_bullet_shape (L : str) (st : state) :
  let st' := handle_bullet L st in
  let text := fmt (strip (skipn 2 L)) in
  i st' = S (i st) /\
  sub_list_open st' = sub_list_open st /\
  current_section st' = current_section st /\
  (if is_flat (current_section st)
   then item_list_open st' = item_list_open st
        /\ exists l, out st' = out st ++ [l]
                     /\ has_section [l] = false /\ classify l = None
   else item_list_open st' = true
        /\ out st' = out st
                     ++ (if item_list_open st then [] else [ITEM_LIST_START])
                     ++ [lit "      \item\small{" ++ text ++ lit "}"]).
Proof.
  unfold handle_bullet. cbv zeta.
  destruct (is_flat (current_section st)).
  - destruct (match_label (fmt (strip (skipn 2 L)))) as [[g1 g2]|];
      autorewrite with state; repeat split;
      eexists; (split; [reflexivity|split; vm_compute; reflexivity]).
  - destruct (item_list_open st) eqn:E; autorewrite with state.
    + repeat split. exact E.
    + repeat split. rewrite <- app_assoc. reflexivity.
Qed.

Lemma nested_item_quiet (text : str) :
  quiet (lit "      \item\small{" ++ text ++ lit "}").
Proof. quiet_line. Qed.

Lemma step_advances (st : state) : i st < i (step st).
Proof.
  unfold step. destruct (kind_of (strip (line lines (i st)))).
  - rewrite goto_i. lia.
  - apply handle_h1_shape.
  - rewrite (proj1 (handle_h2_shape _ st)). lia.
  - apply handle_h3_shape.
  - rewrite (proj1 (handle_h4_shape _ st)). lia.
  - rewrite (proj1 (handle_bullet_shape _ st)). lia.
  - rewrite goto_i. lia.
Qed.

Lemma scan_reachable (fuel : nat) (st : state) :
  reachable st -> reachable (scan fuel st).
Proof.
  revert st. induction fuel as [|f IH]; intros st R; simpl; [exact R|].
  destruct (i st <? List.length lines) eqn:E; [|exact R].
  apply IH. constructor; [exact R|]. apply Nat.ltb_lt. exact E.
Qed.

Lemma scanned_reachable : reachable (scanned unicode_lower lines).
Proof. apply scan_reachable. constructor. Qed.

Lemma scan_progress (fuel : nat) (st : state) :
  List.length lines <= i st + fuel ->
  List.length lines <= i (scan fuel st).
Proof.
  revert st. induction fuel as [|f IH]; intros st H; simpl; [lia|].
  destruct (i st <? List.length lines) eqn:E.
  - apply IH. pose proof (step_advances st). lia.
  - apply Nat.ltb_ge. exact E.
Qed.

Lemma scan_done (fuel : nat) (st : state) :
  List.length lines <= i st -> scan fuel st = st.
Proof.
  intros H. destruct fuel as [|f]; simpl; [reflexivity|].
  destruct (i st <? List.length lines) eqn:E; [|reflexivity].
  apply Nat.ltb_lt in E. lia.
Qed.

Lemma scan_more (fuel extra : nat) (st : state) :
  List.length lines <= i st + fuel ->
  scan (fuel + extra) st = scan fuel st.
Proof.
  revert st. induction fuel as [|f IH]; intros st H.
  - simpl. apply scan_done. lia.
  - simpl. destruct (i st <? List.length lines) eqn:E; [|reflexivity].
    apply IH. pose proof (step_advances st). lia.
Qed.

(** C10: every iteration of the scanning loop moves the cursor forward
    by at least one line, so the loop is left after at most as many
    iterations as there are lines: the cursor then stands at or beyond the
    end, and further iterations change nothing. *)
Theorem scan_terminates :
  (forall st, i st < i (step st)) /\
  List.length lines <= i (scanned unicode_lower lines) /\
  (forall extra,
     scan (List.length lines + extra) init = scanned unicode_lower lines).
Proof.
  split; [exact step_advances|]. split.
  - apply scan_progress. simpl. lia.
  - intros extra. apply scan_more. simpl. lia.
Qed.


Lemma quiet_no_section (ls : list str) :
  Forall quiet ls -> has_section ls = false.
Proof.
  intros H. induction H as [|l ls [Hl _] _ IH]; [reflexivity|].
  change (l :: ls) with ([l] ++ ls). rewrite has_section_app, Hl, IH.
  reflexivity.
Qed.




(** Once a section title is in the buffer the sub-list is open. *)
Lemma reachable_section_open (st : state) :
  reachable st -> has_section (out st) = true -> sub_list_open st = true.
Proof.
  intros R. induction R as [|st R IH Hi]; [discriminate|].
  unfold step. destruct (kind_of (strip (line lines (i st)))) eqn:K.
  - exact IH.
  - destruct (handle_h1_quiet st Hi K) as [ls [E Q]].
    destruct (handle_h1_shape (strip (line lines (i st))) st)
      as [_ [_ [_ [-> _]]]].
    rewrite E, has_section_app, (quiet_no_section _ Q), orb_false_r.
    exact IH.
  - destruct (handle_h2_shape (strip (line lines (i st))) st)
      as [_ [_ [_ [-> _]]]]. reflexivity.
  - destruct (handle_h3_shape (strip (line lines (i st))) st)
      as [_ [[ls [-> Q]] [_ [-> _]]]].
    rewrite has_section_app, (quiet_no_section _ Q), orb_false_r,
      close_items_out, has_section_app.
    destruct (item_list_open st); rewrite orb_false_r; exact IH.
  - destruct (handle_h4_shape (strip (line lines (i st))) st)
      as [_ [[ls [-> Q]] [_ [-> _]]]].
    rewrite has_section_app, (quiet_no_section _ Q), orb_false_r,
      close_items_out, has_section_app.
    destruct (item_list_open st); rewrite orb_false_r; exact IH.
  - destruct (handle_bullet_shape (strip (line lines (i st))) st)
      as [_ [-> [_ B]]].
    destruct (is_flat (current_section st)).
    + destruct B as [_ [l [-> [Q _]]]].
      rewrite has_section_app, Q, orb_false_r. exact IH.
    + destruct B as [_ ->].
      rewrite !has_section_app.
      replace (has_section (if item_list_open st then [] else [ITEM_LIST_START]))
        with false by (destruct (item_list_open st); reflexivity).
      rewrite (proj1 (nested_item_quiet
                        (fmt (strip (skipn 2 (strip (line lines (i st)))))))),
        !orb_false_r.
      exact IH.
  - exact IH.
Qed.


(** C2 (as amended): in every state the loop goes through after a section
    title has been emitted, the sub-list is open, so an open item list
    lies inside an open sub-list. *)
Theorem item_open_implies_sub_open (st : state) :
  reachable st ->
  has_section (out st) = true ->
  sub_list_open st = true /\
  (item_list_open st = true -> sub_list_open st = true).
Proof.
  intros R H. pose proof (reachable_section_open st R H) as S.
  split; [exact S|intros _; exact S].
Qed.

(** Blank lines are stepped over one at a time, with nothing emitted. *)
Lemma blank_run (n : nat) (st : state) :
  (forall k, i st <= k < i st + n -> is_blank (line lines k) = true) ->
  Nat.iter n step st = goto (i st + n) st.
Proof.
  induction n as [|n IH]; intros H.
  - rewrite Nat.add_0_r. symmetry. apply goto_same.
  - simpl. rewrite IH by (intros k Hk; apply H; lia).
    unfold step. rewrite goto_i, blank_kind by (apply H; lia).
    rewrite goto_goto. f_equal. lia.
Qed.

Lemma handle_h3_cursor (L : str) (st : state) :
  i (handle_h3 lines L st)
  = if has_meta lines (i st) then S (skip_blank lines (S (i st)))
    else S (i st).
Proof.
  unfold handle_h3. cbv zeta.
  destruct (parse_heading3 L) as [company role].
  unfold meta_lookahead. cbv zeta. rewrite close_items_i.
  destruct (has_meta lines (i st)).
  - destruct (parse_meta (line lines (skip_blank lines (S (i st)))))
      as [[loc dates] extra].
    rewrite goto_section.
    destruct (contains (lit "education") (current_section (close_items st)));
      [|destruct ((skip_blank lines (S (skip_blank lines (S (i st))))
                   <? List.length lines) && _)];
      autorewrite with state; reflexivity.
  - rewrite goto_section.
    destruct (contains (lit "education") (current_section (close_items st)));
      [|destruct ((skip_blank lines (S (i st)) <? List.length lines) && _)];
      autorewrite with state; reflexivity.
Qed.

Lemma scan_iter (n fuel : nat) (st : state) :
  (forall m, m < n -> i (Nat.iter m step st) < List.length lines) ->
  scan (n + fuel) st = scan fuel (Nat.iter n step st).
Proof.
  revert st. induction n as [|n IH]; intros st H; [reflexivity|].
  rewrite Nat.iter_succ_r. simpl.
  pose proof (H 0 (Nat.lt_0_succ n)) as H0. simpl in H0.
  apply Nat.ltb_lt in H0. rewrite H0. apply IH.
  intros m Hm. rewrite <- Nat.iter_succ_r. apply H. lia.
Qed.

Lemma line_in_range (k : nat) :
  kind_of (strip (line lines k)) <> Blank -> k < List.length lines.
Proof.
  intros H. destruct (Nat.lt_ge_cases k (List.length lines)) as [L|L];
    [exact L|].
  exfalso. apply H. unfold line. rewrite nth_overflow by exact L.
  reflexivity.
Qed.

(** C5: when the line found by the lookahead of an entry heading does not
    start with the bold marker, the entry handler advances the cursor by
    one line only; the lines up to the next non-blank line are blank, and
    the loop steps over them with nothing emitted, so that this line is
    the next one it dispatches on. *)
Theorem entry_without_meta_keeps_next_line (st : state) :
  kind_of (strip (line lines (i st))) = H3 ->
  has_meta lines (i st) = false ->
  let j := skip_blank lines (S (i st)) in
  i (step st) = S (i st) /\
  S (i st) <= j /\
  (forall k, S (i st) <= k < j -> is_blank (line lines k) = true) /\
  (j < List.length lines -> is_blank (line lines j) = false) /\
  Nat.iter (j - S (i st)) step (step st) = goto j (step st) /\
  (forall fuel,
     scan (j - S (i st) + fuel) (step st) = scan fuel (goto j (step st))).
Proof.
  intros K M j.
  assert (C : i (step st) = S (i st)).
  { unfold step. rewrite K, handle_h3_cursor, M. reflexivity. }
  pose proof (skip_blank_ge lines (S (i st))) as G. fold j in G.
  assert (B : forall k, S (i st) <= k < j -> is_blank (line lines k) = true).
  { intros k Hk. apply (skip_blank_between lines (S (i st))). exact Hk. }
  assert (R : forall n, n <= j - S (i st) ->
                        Nat.iter n step (step st) = goto (S (i st) + n) (step st)).
  { intros n Hn. rewrite blank_run; rewrite C; [reflexivity|].
    intros k Hk. apply B. lia. }
  assert (J : j <= List.length lines).
  { apply skip_blank_le. apply line_in_range. rewrite K. discriminate. }
  split; [exact C|]. split; [exact G|]. split; [exact B|].
  split; [apply skip_blank_stop|]. split.
  - rewrite R by lia. f_equal. lia.
  - intros fuel. rewrite scan_iter.
    + rewrite R by lia. do 2 f_equal. lia.
    + intros m Hm. rewrite R by lia. rewrite goto_i. lia.
Qed.

(** C6 (as amended): the title handler takes the first non-blank line
    after the title as the contact, whatever that line is, and moves the
    cursor past it; the contact is empty only when no non-blank line
    follows the title. *)
Theorem title_takes_next_line_as_contact (st : state) :
  kind_of (strip (line lines (i st))) = H1 ->
  let j := skip_blank lines (S (i st)) in
  let contact :=
    if j <? List.length lines then fmt (strip (line lines j)) else [] in
  out (step st)
  = out st
    ++ [lit "\begin{tabular*}{\textwidth}{l@{\extracolsep{\fill}}r}";
        lit "  \textbf{\Large "
          ++ escape_tex (strip (skipn 2 (strip (line lines (i st)))))
          ++ lit "} & \\";
        contact_line contact;
        lit "\end{tabular*}";
        lit "\vspace{2mm}"] /\
  i (step st) = S j /\
  item_list_open (step st) = item_list_open st /\
  sub_list_open (step st) = sub_list_open st /\
  current_section (step st) = current_section st /\
  (forall k, S (i st) <= k < j -> is_blank (line lines k) = true) /\
  (j < List.length lines -> is_blank (line lines j) = false) /\
  (List.length lines <= j -> contact_line contact = lit "  ").
Proof.
  intros K j contact. unfold step. rewrite K. unfold handle_h1. cbv zeta.
  autorewrite with state. fold j. fold contact.
  split; [reflexivity|]. do 4 (split; [reflexivity|]).
  split; [intros k Hk; apply (skip_blank_between lines (S (i st))); exact Hk|].
  split; [apply skip_blank_stop|].
  intros H. unfold contact. apply Nat.ltb_ge in H. rewrite H. reflexivity.
Qed.


(** C8: a section handler stores the lower-cased title; a bullet is
    rendered flat exactly when that stored title holds "skill" or
    "co-curricular".  A flat bullet adds one line that is no list
    directive and leaves the item list as it was; any other bullet opens
    the item list if it was closed and adds a nested item.  The title
    "Skills & Tools" is flat, "Work Experience" is not. *)
Theorem flat_bullets (st : state) :
  (kind_of (strip (line lines (i st))) = H2 ->
   current_section (step st)
   = lower unicode_lower (strip (skipn 3 (strip (line lines (i st)))))) /\
  (kind_of (strip (line lines (i st))) = Bullet ->
   is_flat (current_section st)
   = contains (lit "skill") (current_section st)
     || contains (lit "co-curricular") (current_section st) /\
   (is_flat (current_section st) = true ->
    item_list_open (step st) = item_list_open st /\
    exists l, out (step st) = out st ++ [l] /\ classify l = None) /\
   (is_flat (current_section st) = false ->
    item_list_open (step st) = true /\
    out (step st)
    = out st ++ (if item_list_open st then [] else [ITEM_LIST_START])
        ++ [lit "      \item\small{"
              ++ fmt (strip (skipn 2 (strip (line lines (i st)))))
              ++ lit "}"])) /\
  is_flat (lower unicode_lower (lit "Skills & Tools")) = true /\
  is_flat (lower unicode_lower (lit "Work Experience")) = false /\
  directives
    (final_out unicode_lower [lit "## Skills & Tools"; lit "- Go, Rust"])
  = [SubStart; SubEnd] /\
  directives
    (final_out unicode_lower [lit "## Work Experience"; lit "- Built X"])
  = [SubStart; ItemStart; ItemEnd; SubEnd].
Proof.
  split; [|split; [|repeat split; vm_compute; reflexivity]].
  - intros K. unfold step. rewrite K. apply handle_h2_shape.
  - intros K. unfold step. rewrite K.
    destruct (handle_bullet_shape (strip (line lines (i st))) st)
      as [_ [_ [_ B]]].
    split; [reflexivity|]. split; intros F; rewrite F in B.
    + destruct B as [B1 [l [B2 [_ B3]]]].
      split; [exact B1|]. exists l. split; [exact B2|exact B3].
    + exact B.
Qed.


Local Abbreviation clean := (Forall (fun l => no_nl l = true)).

Lemma meta_lookahead_no_nl (k : nat) (role : str) :
  clean lines -> no_nl role = true ->
  let '(loc, dates, role', _) := meta_lookahead lines k role in
  no_nl loc = true /\ no_nl dates = true /\ no_nl role' = true.
Proof.
  intros Hl Hr. unfold meta_lookahead. cbv zeta.
  destruct (has_meta lines k); [|repeat split; exact Hr].
  pose proof (parse_meta_no_nl _ (line_no_nl lines (skip_blank lines (S k)) Hl))
    as P.
  destruct (parse_meta (line lines (skip_blank lines (S k))))
    as [[loc dates] extra].
  destruct P as [P1 [P2 P3]].
  split; [auto with no_nl|]. split; [auto with no_nl|].
  destruct extra as [|e extra]; [exact Hr|].
  destruct role as [|r role]; [exact P3|]. auto with no_nl.
Qed.

Ltac grow :=
  repeat first
    [ apply grows_goto | apply grows_set_item | apply grows_set_sub
    | apply grows_set_section | apply grows_close_items
    | apply grows_close_sublist | apply grows_refl
    | apply grows_emit; [|auto 9 with no_nl]
    | apply grows_emits; [|repeat constructor; auto 9 with no_nl] ].

Lemma handle_h1_grows (L : str) (st : state) :
  clean lines -> no_nl L = true -> grows st (handle_h1 lines L st).
Proof.
  intros Hl HL. unfold handle_h1, contact_line. cbv zeta.
  destruct (skip_blank lines (S (i st)) <? List.length lines); grow.
Qed.

Lemma handle_h2_grows (L : str) (st : state) :
  no_nl L = true -> grows st (handle_h2 unicode_lower L st).
Proof. intros HL. unfold handle_h2. cbv zeta. grow. Qed.

Lemma handle_h3_grows (L : str) (st : state) :
  clean lines -> no_nl L = true -> grows st (handle_h3 lines L st).
Proof.
  intros Hl HL. unfold handle_h3. cbv zeta.
  destruct (parse_heading3_no_nl L HL) as [Hc Hr].
  destruct (parse_heading3 L) as [company role]. simpl in Hc, Hr.
  pose proof (meta_lookahead_no_nl (i (close_items st)) (escape_tex role)
                Hl (escape_tex_no_nl _ Hr)) as M.
  destruct (meta_lookahead lines (i (close_items st)) (escape_tex role))
    as [[[loc dates] role'] next].
  destruct M as [M1 [M2 M3]].
  destruct (contains _ _); [destruct dates|destruct (_ && _)]; grow.
Qed.

Lemma handle_h4_grows (L : str) (st : state) :
  no_nl L = true -> grows st (handle_h4 L st).
Proof. intros HL. unfold handle_h4. cbv zeta. grow. Qed.

Lemma handle_bullet_grows (L : str) (st : state) :
  no_nl L = true -> grows st (handle_bullet L st).
Proof.
  intros HL. unfold handle_bullet. cbv zeta.
  assert (Ht : no_nl (fmt (strip (skipn 2 L))) = true)
    by auto with no_nl.
  destruct (is_flat (current_section st)).
  - destruct (match_label _) as [[g1 g2]|] eqn:E.
    + destruct (match_label_no_nl _ _ _ E Ht) as [H1 H2]. grow.
    + grow.
  - destruct (item_list_open st); grow.
Qed.

Lemma step_grows (st : state) : clean lines -> grows st (step st).
Proof.
  intros Hl.
  assert (HL : no_nl (strip (line lines (i st))) = true)
    by auto with no_nl.
  unfold step. destruct (kind_of (strip (line lines (i st)))).
  - apply grows_same. reflexivity.
  - apply handle_h1_grows; assumption.
  - apply handle_h2_grows; assumption.
  - apply handle_h3_grows; assumption.
  - apply handle_h4_grows; assumption.
  - apply handle_bullet_grows; assumption.
  - apply grows_same. reflexivity.
Qed.

Lemma reachable_grows (st : state) :
  clean lines -> reachable st -> grows init st.
Proof.
  intros Hl R. induction R as [|st R IH Hi]; [apply grows_refl|].
  apply (grows_trans _ st); [exact IH|apply step_grows, Hl].
Qed.

(** The buffer that is joined: the preamble, then lines without newline. *)
Lemma final_out_lines :
  clean lines ->
  exists ls, final_out unicode_lower lines = LATEX_PREAMBLE :: ls
             /\ clean ls.
Proof.
  intros Hl.
  destruct (grows_close_sublist _ _
              (reachable_grows _ Hl scanned_reachable))
    as [ls [E F]].
  exists (ls ++ [lit "\end{document}"]). unfold final_out. rewrite E.
  split; [reflexivity|].
  apply Forall_app. split; [exact F|]. repeat constructor.
Qed.

End ScanProperties.

(** ** The returned string *)




(** ** Closed examples *)

(** C2, as stated, fails: a bullet line before any section title opens
    the item list while the sub-list is closed. *)
Lemma item_open_without_sub_list :
  let st := step keep_case [lit "- a"] init in
  reachable keep_case [lit "- a"] st /\
  item_list_open st = true /\ sub_list_open st = false.
Proof.
  intros st. split; [|split; reflexivity].
  apply reach_step; [apply reach_init|]. simpl. lia.
Qed.

Lemma item_open_implies_sub_open_witness :
  let ls := [lit "## Work"; lit "- a"] in
  let st := scanned keep_case ls in
  reachable keep_case ls st /\ has_section (out st) = true /\
  sub_list_open st = true /\
  (item_list_open st = true -> sub_list_open st = true).
Proof.
  intros ls st.
  assert (R : reachable keep_case ls st) by apply scanned_reachable.
  assert (H : has_section (out st) = true) by (vm_compute; reflexivity).
  split; [exact R|]. split; [exact H|].
  exact (item_open_implies_sub_open keep_case ls st R H).
Defined.

Lemma entry_without_meta_keeps_next_line_witness :
  let ls := [lit "### Acme"; []; lit "- built"] in
  kind_of (strip (line ls (i init))) = H3 /\
  has_meta ls (i init) = false /\
  i (step keep_case ls init) = 1 /\
  Nat.iter 1 (step keep_case ls) (step keep_case ls init)
  = goto 2 (step keep_case ls init).
Proof.
  intros ls.
  assert (K : kind_of (strip (line ls (i init))) = H3) by reflexivity.
  assert (M : has_meta ls (i init) = false) by reflexivity.
  split; [exact K|]. split; [exact M|].
  destruct (entry_without_meta_keeps_next_line keep_case ls init K M)
    as [C [_ [_ [_ [R _]]]]].
  split; [exact C|exact R].
Defined.

(** C6, as stated, fails: a section header that follows the title is
    taken as the contact; no section is opened for it. *)
Lemma section_line_taken_as_contact :
  let o := final_out keep_case (split_lines (lit "# Jane
## Skills")) in
  tl o = [lit "\begin{tabular*}{\textwidth}{l@{\extracolsep{\fill}}r}";
          lit "  \textbf{\Large Jane} & \\";
          lit "  \#\# Skills";
          lit "\end{tabular*}";
          lit "\vspace{2mm}";
          lit "\end{document}"] /\
  has_section o = false /\
  directives o = [].
Proof. intros o. repeat split; vm_compute; reflexivity. Qed.

Lemma title_takes_next_line_as_contact_witness :
  let ls := [lit "# Jane"; []; lit "## Skills"] in
  kind_of (strip (line ls (i init))) = H1 /\
  i (step keep_case ls init) = 3 /\
  nth 3 (out (step keep_case ls init)) [] = lit "  \#\# Skills".
Proof.
  intros ls.
  assert (K : kind_of (strip (line ls (i init))) = H1) by reflexivity.
  split; [exact K|].
  destruct (title_takes_next_line_as_contact keep_case ls init K)
    as [O [C _]].
  split; [exact C|]. rewrite O. reflexivity.
Defined.



Lemma flat_bullets_witness :
  let ls := [lit "## Skills & Tools"; lit "- Go, Rust"] in
  let st := step keep_case ls init in
  kind_of (strip (line ls (i init))) = H2 /\
  current_section st = lit "skills & tools" /\
  kind_of (strip (line ls (i st))) = Bullet /\
  is_flat (current_section st) = true /\
  item_list_open (step keep_case ls st) = false /\
  exists l, out (step keep_case ls st) = out st ++ [l] /\ classify l = None.
Proof.
  intros ls st.
  assert (K2 : kind_of (strip (line ls (i init))) = H2) by reflexivity.
  assert (KB : kind_of (strip (line ls (i st))) = Bullet) by reflexivity.
  assert (F : is_flat (current_section st) = true) by reflexivity.
  split; [exact K2|].
  split; [exact (proj1 (flat_bullets keep_case ls init) K2)|].
  split; [exact KB|]. split; [exact F|].
  destruct (proj1 (proj2 (flat_bullets keep_case ls st)) KB) as [_ [Fl _]].
  exact (Fl F).
Defined.


(** A bare directive name elsewhere in the document is an unrecognised
    line: it is skipped, and the output stays balanced. *)
Lemma stray_directive_line_is_skipped :
  let md := lit "## Work
\resumeSubHeadingListEnd
- a" in
  no_bare_contact (split_lines md) = true /\
  directives (output_lines keep_case md)
  = [SubStart; ItemStart; ItemEnd; SubEnd].
Proof. intros md. split; vm_compute; reflexivity. Qed.


(** * Further properties *)

(** ** The escape *)

Lemma replace1_app (c : N) (new a b : str) :
  replace1 c new (a ++ b) = replace1 c new a ++ replace1 c new b.
Proof.
  induction a as [|x a IH]; [reflexivity|].
  simpl. destruct (N.eqb x c); rewrite IH.
  - rewrite app_assoc. reflexivity.
  - reflexivity.
Qed.

Lemma escape_tex_app (a b : str) :
  escape_tex (a ++ b) = escape_tex a ++ escape_tex b.
Proof. unfold escape_tex. cbv zeta. rewrite !replace1_app. reflexivity. Qed.

Lemma escape_tex_one (x : N) : escape_tex [x] = escape_char x.
Proof.
  unfold escape_tex, escape_char, is_special. cbv zeta.
  destruct (N.eqb x 38) eqn:E1;
    [apply N.eqb_eq in E1; subst; reflexivity|].
  destruct (N.eqb x 37) eqn:E2;
    [apply N.eqb_eq in E2; subst; reflexivity|].
  destruct (N.eqb x 35) eqn:E3;
    [apply N.eqb_eq in E3; subst; reflexivity|].
  destruct (N.eqb x 95) eqn:E4;
    [apply N.eqb_eq in E4; subst; reflexivity|].
  cbn [replace1]. rewrite E1. cbn [replace1]. rewrite E2.
  cbn [replace1]. rewrite E3. cbn [replace1]. rewrite E4. reflexivity.
Qed.

Lemma escape_tex_flat_map (t : str) : escape_tex t = flat_map escape_char t.
Proof.
  induction t as [|x t IH]; [reflexivity|].
  change (x :: t) with ([x] ++ t).
  rewrite escape_tex_app, escape_tex_one, IH. reflexivity.
Qed.

Lemma escape_char_escaped (c : N) (b : bool) (s : str) :
  specials_escaped (N.eqb c 92) s = true ->
  specials_escaped b (escape_char c ++ s) = true.
Proof.
  intros H. unfold escape_char. destruct (is_special c) eqn:E.
  - cbn [app specials_escaped]. rewrite E.
    assert (C : N.eqb c 92 = false).
    { destruct (N.eqb_spec c 92) as [->|]; [discriminate|reflexivity]. }
    rewrite C in H |- *. rewrite H. reflexivity.
  - cbn [app specials_escaped]. rewrite E, H. reflexivity.
Qed.

Lemma flat_map_escaped (t : str) (b : bool) :
  specials_escaped b (flat_map escape_char t) = true.
Proof.
  revert b. induction t as [|c t IH]; intros b; [reflexivity|].
  cbn [flat_map]. apply escape_char_escaped, IH.
Qed.

(** X1: in the text [escape_tex] returns, every ampersand, percent sign,
    hash and underscore stands right after a backslash. *)
Theorem escape_tex_escapes_all (t : str) :
  specials_escaped false (escape_tex t) = true.
Proof. rewrite escape_tex_flat_map. apply flat_map_escaped. Qed.

Lemma escape_tex_length (t : str) :
  List.length (escape_tex t)
  = List.length t + List.length (filter is_special t).
Proof.
  rewrite escape_tex_flat_map. induction t as [|c t IH]; [reflexivity|].
  cbn [flat_map filter]. rewrite length_app, IH. unfold escape_char.
  destruct (is_special c); simpl; lia.
Qed.

Lemma escape_tex_plain (t : str) :
  existsb is_special t = false -> escape_tex t = t.
Proof.
  rewrite escape_tex_flat_map. induction t as [|c t IH]; [reflexivity|].
  cbn [existsb flat_map]. intros H. apply orb_false_elim in H.
  destruct H as [H1 H2]. rewrite (IH H2). unfold escape_char.
  rewrite H1. reflexivity.
Qed.

(** X2: [escape_tex] returns its argument unchanged exactly when the
    argument holds none of the four characters it escapes. *)
Theorem escape_tex_fixpoint (t : str) :
  escape_tex t = t <-> existsb is_special t = false.
Proof.
  split; [|apply escape_tex_plain].
  intros H. pose proof (escape_tex_length t) as L. rewrite H in L.
  assert (F : filter is_special t = []).
  { destruct (filter is_special t); [reflexivity|simpl in L; lia]. }
  clear H L. induction t as [|c t IH]; [reflexivity|].
  cbn [filter] in F. cbn [existsb].
  destruct (is_special c); [discriminate|]. apply IH, F.
Qed.

(** X3: [escape_tex], four replacements in a row, works character by
    character: each of the four characters becomes a backslash and the
    character, every other character is kept; so escaping the parts of a
    text gives the parts of the escaped text, and the result is longer by
    the number of escaped characters. *)
Theorem escape_tex_charwise (a b : str) :
  escape_tex a = flat_map escape_char a /\
  escape_tex (a ++ b) = escape_tex a ++ escape_tex b /\
  List.length (escape_tex a)
  = List.length a + List.length (filter is_special a).
Proof.
  split; [apply escape_tex_flat_map|].
  split; [apply escape_tex_app|apply escape_tex_length].
Qed.

(** ** The inline formatter *)

Lemma forallb_impl (p q : N -> bool) (s : str) :
  (forall c, p c = true -> q c = true) ->
  forallb p s = true -> forallb q s = true.
Proof.
  intros H. induction s as [|c s IH]; [reflexivity|].
  simpl. intros E. apply andb_prop in E. destruct E as [E1 E2].
  rewrite (H c E1), (IH E2). reflexivity.
Qed.

Lemma forallb_and (p q : N -> bool) (s : str) :
  forallb p s = true -> forallb q s = true ->
  forallb (fun c => p c && q c) s = true.
Proof.
  induction s as [|c s IH]; [reflexivity|].
  simpl. intros E F. apply andb_prop in E. apply andb_prop in F.
  destruct E as [E1 E2], F as [F1 F2]. rewrite E1, F1, (IH E2 F2).
  reflexivity.
Qed.

(** The comparisons a character class is made of, one by one. *)
Ltac atoms H :=
  apply negb_true_iff in H;
  unfold is_special, is_markup, is_typographic in H;
  repeat match goal with
         | K : orb _ _ = false |- _ =>
           apply orb_false_elim in K; destruct K
         end.

Ltac atom :=
  match goal with
  | K : N.eqb ?c ?k = false |- negb (N.eqb ?c ?k) = true =>
    rewrite K; reflexivity
  end.

(** A fact on one character of a class, for all characters of a text. *)
Ltac from_class H :=
  eapply forallb_impl; [|exact H];
  cbv beta; let c := fresh "c" in let K := fresh "K" in
  intros c K; atoms K; atom.

Lemma replace1_absent (c : N) (new s : str) :
  forallb (fun x => negb (N.eqb x c)) s = true -> replace1 c new s = s.
Proof.
  induction s as [|x s IH]; [reflexivity|].
  simpl. intros H. apply andb_prop in H. destruct H as [H1 H2].
  apply negb_true_iff in H1. rewrite H1, (IH H2). reflexivity.
Qed.

Lemma replace1_excludes (c : N) (new s : str) :
  forallb (fun x => negb (N.eqb x c)) new = true ->
  forallb (fun x => negb (N.eqb x c)) (replace1 c new s) = true.
Proof.
  intros Hn. induction s as [|x s IH]; [reflexivity|].
  simpl. destruct (N.eqb x c) eqn:E.
  - rewrite forallb_app, Hn. exact IH.
  - simpl. rewrite E. exact IH.
Qed.

Lemma re_sub_inert (pat : str -> option (str * str)) (q : N -> bool) :
  (forall c s, q c = true -> pat (c :: s) = None) ->
  forall f s, forallb q s = true -> re_sub pat f s = s.
Proof.
  intros Hq. induction f as [|f IH]; intros s H; [reflexivity|].
  destruct s as [|c s]; [reflexivity|].
  simpl in H. apply andb_prop in H. destruct H as [H1 H2].
  simpl. rewrite (Hq c s H1), (IH s H2). reflexivity.
Qed.

Lemma pat_bold_other (c : N) (s : str) :
  negb (N.eqb c 42) = true -> pat_bold (c :: s) = None.
Proof.
  intros H. apply negb_true_iff in H. unfold pat_bold.
  cbn [strip_prefix]. rewrite N.eqb_sym, H. reflexivity.
Qed.

Lemma pat_italic_other (c : N) (s : str) :
  negb (N.eqb c 42) = true -> pat_italic (c :: s) = None.
Proof.
  intros H. apply negb_true_iff in H. unfold pat_italic.
  cbn [strip_prefix]. rewrite N.eqb_sym, H. reflexivity.
Qed.

Lemma pat_link_other (c : N) (s : str) :
  negb (N.eqb c 91) = true -> pat_link (c :: s) = None.
Proof.
  intros H. apply negb_true_iff in H. unfold pat_link.
  cbn [strip_prefix]. rewrite N.eqb_sym, H. reflexivity.
Qed.

(** The last steps of [fmt] leave a text without typographic character
    as it is. *)
Lemma fmt_markup_stages (t t1 t2 t3 : str) :
  re_sub pat_bold (List.length t) t = t1 ->
  re_sub pat_italic (List.length t1) t1 = t2 ->
  re_sub pat_link (List.length t2) t2 = t3 ->
  forallb (fun c => negb (is_typographic c)) t3 = true ->
  fmt_markup t = t3.
Proof.
  intros H1 H2 H3 Ht. unfold fmt_markup. cbv zeta. rewrite H1, H2, H3.
  rewrite (replace1_absent 8594), (replace1_absent 8211),
    (replace1_absent 8220), (replace1_absent 8221);
    try reflexivity; from_class Ht.
Qed.

Lemma inert_no_special (t : str) :
  inert t = true -> existsb is_special t = false.
Proof.
  unfold inert. induction t as [|c t IH]; [reflexivity|].
  simpl. intros H. apply andb_prop in H. destruct H as [H1 H2].
  rewrite (IH H2), orb_false_r.
  apply negb_true_iff in H1. apply orb_false_elim in H1.
  destruct H1 as [H1 _]. apply orb_false_elim in H1. apply H1.
Qed.

(** X4: a text that holds none of the characters the formatter looks for
    (the four escaped ones, the star, the opening bracket, the arrow, the
    en dash and the curly quotes) comes back from [fmt] unchanged. *)
Theorem fmt_inert (t : str) : inert t = true -> fmt t = t.
Proof.
  intros H. unfold fmt. rewrite (escape_tex_plain t (inert_no_special t H)).
  unfold inert in H.
  apply (fmt_markup_stages t t t t).
  - apply (re_sub_inert pat_bold _ pat_bold_other). from_class H.
  - apply (re_sub_inert pat_italic _ pat_italic_other). from_class H.
  - apply (re_sub_inert pat_link _ pat_link_other). from_class H.
  - eapply forallb_impl; [|exact H]. cbv beta. intros c K.
    apply negb_true_iff in K. apply orb_false_elim in K.
    destruct K as [_ K]. rewrite K. reflexivity.
Qed.

Lemma fmt_inert_witness :
  inert (lit "Python, Go (2 years) at Acme Inc.") = true /\
  fmt (lit "Python, Go (2 years) at Acme Inc.")
  = lit "Python, Go (2 years) at Acme Inc.".
Proof.
  assert (H : inert (lit "Python, Go (2 years) at Acme Inc.") = true)
    by reflexivity.
  split; [exact H|exact (fmt_inert _ H)].
Defined.

(** X5: the text [fmt] returns holds no arrow, no en dash and no curly
    quote, whatever the input. *)
Theorem fmt_no_typographic (t : str) :
  forallb (fun c => negb (is_typographic c)) (fmt t) = true.
Proof.
  unfold fmt, fmt_markup. cbv zeta.
  set (T := replace1 _ _ (replace1 _ _ (replace1 _ _ (replace1 _ _ _)))).
  assert (H1 : forallb (fun x => negb (N.eqb x 8594%N)) T = true).
  { unfold T. do 3 (apply replace1_keep; [reflexivity|]).
    apply replace1_excludes. reflexivity. }
  assert (H2 : forallb (fun x => negb (N.eqb x 8211%N)) T = true).
  { unfold T. do 2 (apply replace1_keep; [reflexivity|]).
    apply replace1_excludes. reflexivity. }
  assert (H3 : forallb (fun x => negb (N.eqb x 8220%N)) T = true).
  { unfold T. apply replace1_keep; [reflexivity|].
    apply replace1_excludes. reflexivity. }
  assert (H4 : forallb (fun x => negb (N.eqb x 8221%N)) T = true).
  { unfold T. apply replace1_excludes. reflexivity. }
  pose proof (forallb_and _ _ _ (forallb_and _ _ _
                (forallb_and _ _ _ H1 H2) H3) H4) as H.
  eapply forallb_impl; [|exact H]. cbv beta. intros c K.
  unfold is_typographic.
  apply andb_prop in K. destruct K as [K K4].
  apply andb_prop in K. destruct K as [K K3].
  apply andb_prop in K. destruct K as [K1 K2].
  apply negb_true_iff in K1, K2, K3, K4.
  rewrite K1, K2, K3, K4. reflexivity.
Qed.

(** *** Spans *)

Lemma strip_prefix_app (pre r : str) : strip_prefix pre (pre ++ r) = Some r.
Proof.
  induction pre as [|x pre IH]; [reflexivity|].
  simpl. rewrite N.eqb_refl. exact IH.
Qed.

(** A lazy group over a text that holds neither the first character of
    the delimiter nor a newline ends where the delimiter stands. *)
Lemma lazy_group_tail (d : N) (ds x r rest : str) :
  strip_prefix (d :: ds) r = Some rest ->
  x <> [] ->
  forallb (fun c => negb (N.eqb c d) && negb (N.eqb c nl)) x = true ->
  lazy_group (d :: ds) (x ++ r) = Some (x, rest).
Proof.
  intros Hr. induction x as [|c x IH]; intros Hx H; [contradiction|].
  simpl in H. apply andb_prop in H. destruct H as [Hc H].
  apply andb_prop in Hc. destruct Hc as [_ Hn].
  apply negb_true_iff in Hn.
  change ((c :: x) ++ r) with (c :: (x ++ r)).
  cbn [lazy_group]. rewrite Hn.
  destruct x as [|c2 x].
  - change ([] ++ r) with r. rewrite Hr. reflexivity.
  - assert (E : strip_prefix (d :: ds) ((c2 :: x) ++ r) = None).
    { simpl in H. apply andb_prop in H. destruct H as [H2 _].
      apply andb_prop in H2. destruct H2 as [H2 _].
      apply negb_true_iff in H2.
      change ((c2 :: x) ++ r) with (c2 :: (x ++ r)).
      cbn [strip_prefix]. rewrite N.eqb_sym, H2. reflexivity. }
    rewrite E, (IH ltac:(discriminate) H). reflexivity.
Qed.

Lemma lazy_group_plain (d : N) (ds x rest : str) :
  x <> [] ->
  forallb (fun c => negb (N.eqb c d) && negb (N.eqb c nl)) x = true ->
  lazy_group (d :: ds) (x ++ (d :: ds) ++ rest) = Some (x, rest).
Proof.
  apply lazy_group_tail, strip_prefix_app.
Qed.

Lemma link_groups_tail (t r url rest : str) :
  link_tail r = Some (url, rest) ->
  t <> [] ->
  forallb (fun c => negb (N.eqb c 93) && negb (N.eqb c nl)) t = true ->
  link_groups (t ++ r) = Some (t, url, rest).
Proof.
  intros Hr. induction t as [|c t IH]; intros Ht H; [contradiction|].
  simpl in H. apply andb_prop in H. destruct H as [Hc H].
  apply andb_prop in Hc. destruct Hc as [_ Hn].
  apply negb_true_iff in Hn.
  change ((c :: t) ++ r) with (c :: (t ++ r)).
  cbn [link_groups]. rewrite Hn.
  destruct t as [|c2 t].
  - change ([] ++ r) with r. rewrite Hr. reflexivity.
  - assert (E : link_tail ((c2 :: t) ++ r) = None).
    { simpl in H. apply andb_prop in H. destruct H as [H2 _].
      apply andb_prop in H2. destruct H2 as [H2 _].
      apply negb_true_iff in H2. unfold link_tail.
      change ((c2 :: t) ++ r) with (c2 :: (t ++ r)).
      cbn [strip_prefix]. rewrite N.eqb_sym, H2. reflexivity. }
    rewrite E, (IH ltac:(discriminate) H). reflexivity.
Qed.

Lemma link_groups_plain (t url rest : str) :
  t <> [] -> url <> [] ->
  forallb (fun c => negb (N.eqb c 93) && negb (N.eqb c nl)) t = true ->
  forallb (fun c => negb (N.eqb c 41) && negb (N.eqb c nl)) url = true ->
  link_groups (t ++ lit "](" ++ url ++ lit ")" ++ rest)
  = Some (t, url, rest).
Proof.
  intros Ht Hu H Hurl. apply link_groups_tail; [|exact Ht|exact H].
  unfold link_tail.
  rewrite (strip_prefix_app [93; 40]%N).
  apply (lazy_group_plain 41 [] url rest Hu Hurl).
Qed.

Lemma re_sub_skip (pat : str -> option (str * str)) (c : N) (s : str)
      (f : nat) :
  (forall s repl rest, pat s = Some (repl, rest) ->
                       List.length rest < List.length s) ->
  pat (c :: s) = None -> List.length (c :: s) <= f ->
  re_sub pat f (c :: s) = c :: re_sub pat (List.length s) s.
Proof.
  intros Hc E Hf. destruct f as [|f]; [simpl in Hf; lia|].
  simpl. rewrite E. f_equal. simpl in Hf.
  apply (re_sub_fuel pat Hc); lia.
Qed.

Lemma re_sub_match (pat : str -> option (str * str)) (s repl rest : str)
      (f : nat) :
  (forall s repl rest, pat s = Some (repl, rest) ->
                       List.length rest < List.length s) ->
  pat s = Some (repl, rest) -> List.length s <= f ->
  re_sub pat f s = repl ++ re_sub pat (List.length rest) rest.
Proof.
  intros Hc E Hf. pose proof (Hc _ _ _ E) as L.
  destruct s as [|c s]; [simpl in L; lia|].
  destruct f as [|f]; [simpl in Hf; lia|].
  simpl. rewrite E. f_equal. simpl in Hf, L.
  apply (re_sub_fuel pat Hc); lia.
Qed.

Lemma re_sub_app_inert (pat : str -> option (str * str)) (q : N -> bool) :
  (forall c s, q c = true -> pat (c :: s) = None) ->
  (forall s repl rest, pat s = Some (repl, rest) ->
                       List.length rest < List.length s) ->
  forall a s f,
    forallb q a = true -> List.length (a ++ s) <= f ->
    re_sub pat f (a ++ s) = a ++ re_sub pat (List.length s) s.
Proof.
  intros Hq Hc. induction a as [|c a IH]; intros s f H Hf.
  - apply (re_sub_fuel pat Hc); simpl in *; lia.
  - simpl in H. apply andb_prop in H. destruct H as [H1 H2].
    cbn [app]. rewrite (re_sub_skip pat c (a ++ s) f Hc (Hq c _ H1) Hf).
    rewrite (IH s _ H2 (Nat.le_refl _)). reflexivity.
Qed.
Lemma escape_tex_keep (p : N -> bool) (t : str) :
  p 92%N = true -> forallb p t = true -> forallb p (escape_tex t) = true.
Proof.
  intros H92. rewrite escape_tex_flat_map.
  induction t as [|c t IH]; [reflexivity|].
  simpl. intros H. apply andb_prop in H. destruct H as [H1 H2].
  rewrite forallb_app, (IH H2). unfold escape_char.
  destruct (is_special c); simpl; rewrite ?H92, H1; reflexivity.
Qed.

Lemma escape_tex_nonempty (t : str) : t <> [] -> escape_tex t <> [].
Proof.
  intros H E. apply H. apply length_zero_iff_nil.
  apply (f_equal (@List.length N)) in E. rewrite escape_tex_length in E.
  simpl in E. lia.
Qed.

Lemma markup_free_escape (t : str) :
  markup_free t = true -> markup_free (escape_tex t) = true.
Proof. apply escape_tex_keep. reflexivity. Qed.

(** A class of one character from a larger one, for all characters of a
    text. *)
Ltac class_from H :=
  eapply forallb_impl; [|exact H];
  cbv beta; let c := fresh "c" in let K := fresh "K" in
  intros c K; atoms K;
  unfold is_special, is_markup, is_typographic;
  repeat match goal with
         | E : N.eqb _ _ = false |- _ => rewrite E; clear E
         end;
  reflexivity.

(** Two stars around a text without markup, in escaped text. *)
Lemma sub_bold_span (a x b : str) :
  markup_free a = true -> markup_free x = true -> markup_free b = true ->
  x <> [] ->
  fmt_markup (a ++ lit "**" ++ x ++ lit "**" ++ b)
  = a ++ lit "\textbf{" ++ x ++ lit "}" ++ b.
Proof.
  intros Ha Hx Hb Hn. unfold markup_free in Ha, Hx, Hb.
  assert (Hr : forallb (fun c => negb (N.eqb c 42))
                 (a ++ lit "\textbf{" ++ x ++ lit "}" ++ b) = true).
  { rewrite !forallb_app.
    repeat (apply andb_true_intro; split); try reflexivity.
    - from_class Ha. - from_class Hx. - from_class Hb. }
  set (r := a ++ lit "\textbf{" ++ x ++ lit "}" ++ b) in *.
  apply (fmt_markup_stages _ r r r).
  - rewrite (re_sub_app_inert pat_bold _ pat_bold_other pat_bold_consumes);
      [|from_class Ha|apply Nat.le_refl].
    assert (M : pat_bold (lit "**" ++ x ++ lit "**" ++ b)
                = Some (lit "\textbf{" ++ x ++ lit "}", b)).
    { unfold pat_bold. rewrite strip_prefix_app.
      rewrite (lazy_group_plain 42 [42%N] x b Hn); [reflexivity|].
      apply forallb_and; [from_class Hx|from_class Hx]. }
    rewrite (re_sub_match pat_bold _ _ _ _ pat_bold_consumes M (Nat.le_refl _)).
    rewrite (re_sub_inert pat_bold _ pat_bold_other); [|from_class Hb].
    unfold r. rewrite <- !app_assoc. reflexivity.
  - apply (re_sub_inert pat_italic _ pat_italic_other). exact Hr.
  - apply (re_sub_inert pat_link _ pat_link_other).
    unfold r. rewrite !forallb_app.
    repeat (apply andb_true_intro; split); try reflexivity.
    + from_class Ha. + from_class Hx. + from_class Hb.
  - unfold r. rewrite !forallb_app.
    repeat (apply andb_true_intro; split); try reflexivity.
    + class_from Ha. + class_from Hx. + class_from Hb.
Qed.

Lemma contains_single (c : N) (s : str) :
  contains [c] s = false -> forallb (fun x => negb (N.eqb x c)) s = true.
Proof.
  unfold contains. induction s as [|x s IH]; [reflexivity|].
  cbn [find_split strip_prefix forallb].
  rewrite (N.eqb_sym x c).
  destruct (N.eqb c x); [discriminate|].
  destruct (find_split [c] s) as [[a b]|]; [discriminate|].
  intros _. apply IH. reflexivity.
Qed.

(** Single stars around a text without markup, in escaped text. *)
Lemma sub_italic_span (a x b : str) :
  markup_free a = true -> markup_free x = true -> markup_free b = true ->
  x <> [] ->
  fmt_markup (a ++ lit "*" ++ x ++ lit "*" ++ b)
  = a ++ lit "\textit{" ++ x ++ lit "}" ++ b.
Proof.
  intros Ha Hx Hb Hn. unfold markup_free in Ha, Hx, Hb.
  set (r := a ++ lit "\textit{" ++ x ++ lit "}" ++ b).
  assert (Hr : forallb (fun c => negb (is_markup c || is_typographic c)) r
               = true).
  { unfold r. rewrite !forallb_app.
    repeat (apply andb_true_intro; split); try reflexivity.
    - class_from Ha. - class_from Hx. - class_from Hb. }
  apply (fmt_markup_stages _ (a ++ lit "*" ++ x ++ lit "*" ++ b) r r).
  - rewrite (re_sub_app_inert pat_bold _ pat_bold_other pat_bold_consumes);
      [|from_class Ha|apply Nat.le_refl].
    f_equal.
    assert (S1 : pat_bold (42%N :: x ++ lit "*" ++ b) = None).
    { destruct x as [|c x]; [contradiction|].
      simpl in Hx. apply andb_prop in Hx. destruct Hx as [Hc _].
      atoms Hc. unfold pat_bold. cbn [app strip_prefix].
      rewrite N.eqb_refl, N.eqb_sym, H. reflexivity. }
    assert (S2 : pat_bold (42%N :: b) = None).
    { unfold pat_bold. destruct b as [|c b]; [reflexivity|].
      simpl in Hb. apply andb_prop in Hb. destruct Hb as [Hc _].
      atoms Hc. cbn [strip_prefix].
      rewrite N.eqb_refl, N.eqb_sym, H. reflexivity. }
    change (lit "*" ++ x ++ lit "*" ++ b) with (42%N :: (x ++ lit "*" ++ b)).
    rewrite (re_sub_skip pat_bold _ _ _ pat_bold_consumes S1 (Nat.le_refl _)).
    f_equal.
    rewrite (re_sub_app_inert pat_bold _ pat_bold_other pat_bold_consumes);
      [|from_class Hx|apply Nat.le_refl].
    f_equal.
    change (lit "*" ++ b) with (42%N :: b).
    rewrite (re_sub_skip pat_bold _ _ _ pat_bold_consumes S2 (Nat.le_refl _)).
    f_equal.
    apply (re_sub_inert pat_bold _ pat_bold_other). from_class Hb.
  - rewrite (re_sub_app_inert pat_italic _ pat_italic_other
               pat_italic_consumes); [|from_class Ha|apply Nat.le_refl].
    assert (M : pat_italic (lit "*" ++ x ++ lit "*" ++ b)
                = Some (lit "\textit{" ++ x ++ lit "}", b)).
    { unfold pat_italic. rewrite strip_prefix_app.
      rewrite (lazy_group_plain 42 [] x b Hn); [reflexivity|].
      apply forallb_and; [from_class Hx|from_class Hx]. }
    rewrite (re_sub_match pat_italic _ _ _ _ pat_italic_consumes M
               (Nat.le_refl _)).
    rewrite (re_sub_inert pat_italic _ pat_italic_other); [|from_class Hb].
    unfold r. rewrite <- !app_assoc. reflexivity.
  - apply (re_sub_inert pat_link _ pat_link_other). from_class Hr.
  - class_from Hr.
Qed.

(** A bracketed text followed by a parenthesised one, in escaped text. *)
Lemma sub_link_span (a t url b : str) :
  markup_free a = true -> markup_free t = true ->
  markup_free url = true -> markup_free b = true ->
  t <> [] -> url <> [] ->
  contains (lit "]") t = false -> contains (lit ")") url = false ->
  fmt_markup (a ++ lit "[" ++ t ++ lit "](" ++ url ++ lit ")" ++ b)
  = a ++ lit "\href{" ++ url ++ lit "}{" ++ t ++ lit "}" ++ b.
Proof.
  intros Ha Ht Hu Hb Nt Nu Ct Cu. unfold markup_free in Ha, Ht, Hu, Hb.
  apply contains_single in Ct, Cu.
  set (s := a ++ lit "[" ++ t ++ lit "](" ++ url ++ lit ")" ++ b).
  set (r := a ++ lit "\href{" ++ url ++ lit "}{" ++ t ++ lit "}" ++ b).
  assert (Hs : forallb (fun c => negb (N.eqb c 42)) s = true).
  { unfold s. rewrite !forallb_app.
    repeat (apply andb_true_intro; split); try reflexivity.
    - from_class Ha. - from_class Ht. - from_class Hu. - from_class Hb. }
  apply (fmt_markup_stages _ s s r).
  - apply (re_sub_inert pat_bold _ pat_bold_other). exact Hs.
  - apply (re_sub_inert pat_italic _ pat_italic_other). exact Hs.
  - unfold s.
    rewrite (re_sub_app_inert pat_link _ pat_link_other pat_link_consumes);
      [|from_class Ha|apply Nat.le_refl].
    assert (M : pat_link (lit "[" ++ t ++ lit "](" ++ url ++ lit ")" ++ b)
                = Some (lit "\href{" ++ url ++ lit "}{" ++ t ++ lit "}", b)).
    { unfold pat_link. rewrite strip_prefix_app.
      rewrite (link_groups_plain t url b Nt Nu); [reflexivity| |].
      - apply forallb_and; [exact Ct|from_class Ht].
      - apply forallb_and; [exact Cu|from_class Hu]. }
    rewrite (re_sub_match pat_link _ _ _ _ pat_link_consumes M
               (Nat.le_refl _)).
    rewrite (re_sub_inert pat_link _ pat_link_other); [|from_class Hb].
    unfold r. rewrite <- !app_assoc. reflexivity.
  - unfold r. rewrite !forallb_app.
    repeat (apply andb_true_intro; split); try reflexivity.
    + class_from Ha. + class_from Hu. + class_from Ht. + class_from Hb.
Qed.


Lemma escape_tex_no_char (c : N) (t : str) :
  N.eqb c 92 = false -> is_special c = false ->
  contains [c] t = false ->
  forallb (fun x => negb (N.eqb x c)) (escape_tex t) = true.
Proof.
  intros H92 Hs H. apply contains_single in H.
  rewrite escape_tex_flat_map.
  induction t as [|x t IH]; [reflexivity|].
  simpl in H. apply andb_prop in H. destruct H as [H1 H2].
  cbn [flat_map]. rewrite forallb_app, (IH H2), andb_true_r.
  unfold escape_char. destruct (is_special x); cbn [forallb]; rewrite H1;
    [|reflexivity].
  rewrite (N.eqb_sym 92 c), H92. reflexivity.
Qed.

Lemma single_absent (c : N) (s : str) :
  forallb (fun x => negb (N.eqb x c)) s = true -> contains [c] s = false.
Proof.
  unfold contains. induction s as [|x s IH]; [reflexivity|].
  cbn [find_split strip_prefix forallb]. intros H.
  apply andb_prop in H. destruct H as [H1 H2].
  apply negb_true_iff in H1. rewrite N.eqb_sym, H1.
  specialize (IH H2).
  destruct (find_split [c] s) as [[a b]|]; [discriminate|reflexivity].
Qed.

(** X6: [fmt] turns a text between two pairs of stars into a bold command
    around the escaped text, and escapes what stands before and after,
    when the three texts are free of markup and the inner one is not
    empty. *)
Theorem fmt_bold_span (a x b : str) :
  markup_free a = true -> markup_free x = true -> markup_free b = true ->
  x <> [] ->
  fmt (a ++ lit "**" ++ x ++ lit "**" ++ b)
  = escape_tex a ++ lit "\textbf{" ++ escape_tex x ++ lit "}"
    ++ escape_tex b.
Proof.
  intros Ha Hx Hb Hn. unfold fmt. rewrite !escape_tex_app.
  change (escape_tex (lit "**")) with (lit "**").
  apply sub_bold_span;
    [apply markup_free_escape, Ha|apply markup_free_escape, Hx
    |apply markup_free_escape, Hb|apply escape_tex_nonempty, Hn].
Qed.

Lemma fmt_bold_span_witness :
  fmt (lit "Led **R&D** for 50% of sites")
  = lit "Led \textbf{R\&D} for 50\% of sites".
Proof.
  exact (fmt_bold_span (lit "Led ") (lit "R&D") (lit " for 50% of sites")
           eq_refl eq_refl eq_refl ltac:(discriminate)).
Defined.

(** X7: [fmt] turns a text between two single stars into an italic
    command around the escaped text, under the same conditions. *)
Theorem fmt_italic_span (a x b : str) :
  markup_free a = true -> markup_free x = true -> markup_free b = true ->
  x <> [] ->
  fmt (a ++ lit "*" ++ x ++ lit "*" ++ b)
  = escape_tex a ++ lit "\textit{" ++ escape_tex x ++ lit "}"
    ++ escape_tex b.
Proof.
  intros Ha Hx Hb Hn. unfold fmt. rewrite !escape_tex_app.
  change (escape_tex (lit "*")) with (lit "*").
  apply sub_italic_span;
    [apply markup_free_escape, Ha|apply markup_free_escape, Hx
    |apply markup_free_escape, Hb|apply escape_tex_nonempty, Hn].
Qed.

Lemma fmt_italic_span_witness :
  fmt (lit "GPA *3.9_4.0* (top 5%)") = lit "GPA \textit{3.9\_4.0} (top 5\%)".
Proof.
  exact (fmt_italic_span (lit "GPA ") (lit "3.9_4.0") (lit " (top 5%)")
           eq_refl eq_refl eq_refl ltac:(discriminate)).
Defined.

(** X8: [fmt] turns a markdown link into a link command with the target
    first and the text second, both escaped, when the texts are free of
    markup, the link text holds no closing bracket and the target no
    closing parenthesis. *)
Theorem fmt_link_span (a t url b : str) :
  markup_free a = true -> markup_free t = true ->
  markup_free url = true -> markup_free b = true ->
  t <> [] -> url <> [] ->
  contains (lit "]") t = false -> contains (lit ")") url = false ->
  fmt (a ++ lit "[" ++ t ++ lit "](" ++ url ++ lit ")" ++ b)
  = escape_tex a ++ lit "\href{" ++ escape_tex url ++ lit "}{"
    ++ escape_tex t ++ lit "}" ++ escape_tex b.
Proof.
  intros Ha Ht Hu Hb Nt Nu Ct Cu. unfold fmt. rewrite !escape_tex_app.
  change (escape_tex (lit "[")) with (lit "[").
  change (escape_tex (lit "](")) with (lit "](").
  change (escape_tex (lit ")")) with (lit ")").
  apply sub_link_span;
    [apply markup_free_escape, Ha|apply markup_free_escape, Ht
    |apply markup_free_escape, Hu|apply markup_free_escape, Hb
    |apply escape_tex_nonempty, Nt|apply escape_tex_nonempty, Nu
    |apply single_absent, escape_tex_no_char; [reflexivity|reflexivity|exact Ct]
    |apply single_absent, escape_tex_no_char; [reflexivity|reflexivity|exact Cu]].
Qed.

Lemma fmt_link_span_witness :
  fmt (lit "see [my_site](https://a.io/x_y) now")
  = lit "see \href{https://a.io/x\_y}{my\_site} now".
Proof.
  exact (fmt_link_span (lit "see ") (lit "my_site") (lit "https://a.io/x_y")
           (lit " now") eq_refl eq_refl eq_refl eq_refl
           ltac:(discriminate) ltac:(discriminate) eq_refl eq_refl).
Defined.

(** ** White space *)

Lemma dropwhile_all (p : N -> bool) (sp s : str) :
  forallb p sp = true -> dropwhile p (sp ++ s) = dropwhile p s.
Proof.
  induction sp as [|c sp IH]; [reflexivity|].
  simpl. intros H. apply andb_prop in H. destruct H as [H1 H2].
  rewrite H1. exact (IH H2).
Qed.

Lemma dropwhile_stop (p : N -> bool) (c : N) (s : str) :
  p c = false -> dropwhile p (c :: s) = c :: s.
Proof. intros H. simpl. rewrite H. reflexivity. Qed.

Lemma dropwhile_idem (p : N -> bool) (s : str) :
  dropwhile p (dropwhile p s) = dropwhile p s.
Proof.
  pose proof (dropwhile_head p s) as H.
  destruct (dropwhile p s) as [|c r]; [reflexivity|].
  apply dropwhile_stop, H.
Qed.

Lemma dropwhile_app (p : N -> bool) (s t : str) :
  dropwhile p (s ++ t)
  = match dropwhile p s with
    | [] => dropwhile p t
    | c :: r => (c :: r) ++ t
    end.
Proof.
  induction s as [|c s IH]; simpl.
  - destruct (dropwhile p t); reflexivity.
  - destruct (p c); [exact IH|reflexivity].
Qed.

Lemma forallb_rev (p : N -> bool) (s : str) :
  forallb p s = true -> forallb p (rev s) = true.
Proof.
  rewrite !forallb_forall. intros H x Hx. apply H, in_rev, Hx.
Qed.

Lemma lstrip_pad (sp s : str) :
  forallb is_space sp = true -> lstrip (sp ++ s) = lstrip s.
Proof. apply dropwhile_all. Qed.

Lemma rstrip_pad (s sp : str) :
  forallb is_space sp = true -> rstrip (s ++ sp) = rstrip s.
Proof.
  intros H. unfold rstrip. rewrite rev_app_distr.
  rewrite (dropwhile_all _ _ _ (forallb_rev _ _ H)). reflexivity.
Qed.

Lemma rstrip_idem (s : str) : rstrip (rstrip s) = rstrip s.
Proof.
  unfold rstrip. rewrite rev_involutive, dropwhile_idem. reflexivity.
Qed.

Lemma rstrip_all (sp : str) : forallb is_space sp = true -> rstrip sp = [].
Proof.
  intros H. exact (rstrip_pad [] sp H).
Qed.

Lemma strip_idem (s : str) : strip (strip s) = strip s.
Proof.
  unfold strip. pose proof (strip_head s) as H. unfold strip in H.
  destruct (rstrip (lstrip s)) as [|c r] eqn:E; [reflexivity|].
  unfold lstrip at 1. rewrite (dropwhile_stop _ _ _ H), <- E.
  apply rstrip_idem.
Qed.

Lemma strip_pad (sp1 s sp2 : str) :
  forallb is_space sp1 = true -> forallb is_space sp2 = true ->
  strip (sp1 ++ s ++ sp2) = strip s.
Proof.
  intros H1 H2. unfold strip. rewrite (lstrip_pad _ _ H1).
  unfold lstrip. rewrite dropwhile_app.
  destruct (dropwhile is_space s) as [|c r].
  - pose proof (dropwhile_all is_space sp2 [] H2) as E.
    rewrite app_nil_r in E. rewrite E. reflexivity.
  - apply rstrip_pad, H2.
Qed.

(** A text that starts and ends with a character that is no white space
    is trimmed. *)
Lemma strip_framed (c d : N) (r r' s : str) :
  s = c :: r -> s = r' ++ [d] ->
  is_space c = false -> is_space d = false -> strip s = s.
Proof.
  intros E1 E2 Hc Hd. unfold strip, lstrip.
  rewrite E1, (dropwhile_stop _ _ _ Hc), <- E1, E2.
  unfold rstrip. rewrite rev_app_distr. cbn [rev app].
  rewrite (dropwhile_stop _ _ _ Hd).
  cbn [rev]. rewrite rev_involutive. reflexivity.
Qed.

Lemma trimmed_ends (s : str) :
  trimmed s -> s <> [] ->
  (exists c r, s = c :: r /\ is_space c = false) /\
  (exists r d, s = r ++ [d] /\ is_space d = false).
Proof.
  unfold trimmed. intros T N. split.
  - pose proof (strip_head s) as H. rewrite T in H.
    destruct s as [|c r]; [contradiction|]. exists c, r. split; [reflexivity|exact H].
  - unfold strip, rstrip in T.
    pose proof (dropwhile_head is_space (rev (lstrip s))) as H.
    destruct (dropwhile is_space (rev (lstrip s))) as [|d w].
    + simpl in T. symmetry in T. contradiction.
    + exists (rev w), d. split; [symmetry; exact T|exact H].
Qed.

Lemma trimmed_nil : trimmed [].
Proof. reflexivity. Qed.

Lemma trimmed_strip (s : str) : trimmed (strip s).
Proof. apply strip_idem. Qed.

(** Two trimmed texts around any text, with white space around the whole,
    are what [strip] returns. *)
Lemma strip_join (sp1 a m b sp2 : str) :
  trimmed a -> a <> [] -> trimmed b -> b <> [] ->
  forallb is_space sp1 = true -> forallb is_space sp2 = true ->
  strip (sp1 ++ (a ++ m ++ b) ++ sp2) = a ++ m ++ b.
Proof.
  intros Ta Na Tb Nb H1 H2. rewrite (strip_pad _ _ _ H1 H2).
  destruct (trimmed_ends a Ta Na) as [[c [r [Ea Hc]]] _].
  destruct (trimmed_ends b Tb Nb) as [_ [r' [d [Eb Hd]]]].
  apply (strip_framed c d (r ++ m ++ b) (a ++ m ++ r')); try assumption.
  - rewrite Ea. reflexivity.
  - rewrite Eb at 1. rewrite <- !app_assoc. reflexivity.
Qed.

Lemma strip_right (a sp : str) :
  trimmed a -> forallb is_space sp = true -> strip (a ++ sp) = a.
Proof.
  intros T H. pose proof (strip_pad [] a sp eq_refl H) as E.
  cbn [app] in E. rewrite E. exact T.
Qed.

Lemma strip_left (sp a : str) :
  trimmed a -> forallb is_space sp = true -> strip (sp ++ a) = a.
Proof.
  intros T H. pose proof (strip_pad sp a [] H eq_refl) as E.
  rewrite app_nil_r in E. rewrite E. exact T.
Qed.

(** ** Separators *)

Lemma find_split_eq (sep s : str) :
  find_split sep s
  = match strip_prefix sep s with
    | Some r => Some ([], r)
    | None =>
      match s with
      | [] => None
      | c :: s' =>
        match find_split sep s' with
        | Some (a, b) => Some (c :: a, b)
        | None => None
        end
      end
    end.
Proof. destruct s; reflexivity. Qed.

(** The first occurrence of a separator whose second character does not
    occur before it, and differs from its first. *)
Lemma find_split_first (s0 d : N) (rest a b : str) :
  N.eqb d s0 = false ->
  forallb (fun x => negb (N.eqb x d)) a = true ->
  find_split (s0 :: d :: rest) (a ++ (s0 :: d :: rest) ++ b) = Some (a, b).
Proof.
  intros Hd. induction a as [|c a IH]; intros H.
  - rewrite find_split_eq. cbn [app].
    change (s0 :: d :: rest ++ b) with ((s0 :: d :: rest) ++ b).
    rewrite strip_prefix_app. reflexivity.
  - simpl in H. apply andb_prop in H. destruct H as [H1 H2].
    rewrite find_split_eq.
    assert (E : strip_prefix (s0 :: d :: rest)
                  ((c :: a) ++ (s0 :: d :: rest) ++ b) = None).
    { change ((c :: a) ++ (s0 :: d :: rest) ++ b)
        with (c :: (a ++ (s0 :: d :: rest) ++ b)).
      cbn [strip_prefix]. destruct (N.eqb s0 c); [|reflexivity].
      destruct a as [|c2 a].
      - cbn [app]. rewrite Hd. reflexivity.
      - simpl in H2. apply andb_prop in H2. destruct H2 as [H2 _].
        apply negb_true_iff in H2. cbn [app].
        rewrite N.eqb_sym, H2. reflexivity. }
    rewrite E.
    change ((c :: a) ++ (s0 :: d :: rest) ++ b)
      with (c :: (a ++ (s0 :: d :: rest) ++ b)).
    cbv iota. rewrite (IH H2). reflexivity.
Qed.

Lemma find_split_single (d : N) (a b : str) :
  forallb (fun x => negb (N.eqb x d)) a = true ->
  find_split [d] (a ++ [d] ++ b) = Some (a, b).
Proof.
  induction a as [|c a IH]; intros H.
  - rewrite find_split_eq. cbn [app strip_prefix]. rewrite N.eqb_refl.
    reflexivity.
  - simpl in H. apply andb_prop in H. destruct H as [H1 H2].
    apply negb_true_iff in H1.
    rewrite find_split_eq.
    change ((c :: a) ++ [d] ++ b) with (c :: (a ++ [d] ++ b)).
    cbn [strip_prefix]. rewrite N.eqb_sym, H1, (IH H2). reflexivity.
Qed.

(** ** Heading and metadata parsers *)

Lemma split_first_trimmed (seps : list str) (text : str) :
  trimmed text ->
  trimmed (fst (split_first seps text))
  /\ trimmed (snd (split_first seps text)).
Proof.
  intros T. induction seps as [|sep seps IH]; simpl.
  - split; [exact T|reflexivity].
  - destruct (find_split sep text) as [[a b]|]; [|exact IH].
    split; apply trimmed_strip.
Qed.

(** X9: the two parts [parse_heading3] returns carry no white space at
    either end, for every line. *)
Theorem parse_heading3_trimmed (line : str) :
  trimmed (fst (parse_heading3 line))
  /\ trimmed (snd (parse_heading3 line)).
Proof.
  unfold parse_heading3, heading_text.
  apply split_first_trimmed, trimmed_strip.
Qed.

Lemma heading_text_hashes (n : nat) (s : str) :
  heading_text (repeat (ch "#") n ++ lit " " ++ s) = strip (lit " " ++ s).
Proof.
  unfold heading_text, lstrip_char. f_equal.
  rewrite dropwhile_all; [reflexivity|].
  induction n as [|n IH]; [reflexivity|exact IH].
Qed.

(** X10: a heading made of any number of hashes, a space, a name, the
    spaced em dash and a role is parsed back into the name and the role,
    when both are trimmed and not empty and the name holds no em dash. *)
Theorem parse_heading3_round_trip (n : nat) (a b : str) :
  trimmed a -> trimmed b -> a <> [] -> b <> [] ->
  contains (lit "—") a = false ->
  parse_heading3 (repeat (ch "#") n ++ lit " " ++ a ++ lit " — " ++ b)
  = (a, b).
Proof.
  intros Ta Tb Na Nb C. apply contains_single in C.
  unfold parse_heading3. rewrite heading_text_hashes.
  pose proof (strip_join (lit " ") a (lit " — ") b [] Ta Na Tb Nb
                eq_refl eq_refl) as E.
  rewrite app_nil_r in E. rewrite E.
  unfold heading_seps. cbn [split_first].
  rewrite (find_split_first 32 8212 [32%N] a b eq_refl C).
  rewrite Ta, Tb. reflexivity.
Qed.

Lemma parse_heading3_round_trip_witness :
  parse_heading3 (lit "### Acme -- Labs — Staff Engineer")
  = (lit "Acme -- Labs", lit "Staff Engineer").
Proof.
  exact (parse_heading3_round_trip 3 (lit "Acme -- Labs")
           (lit "Staff Engineer") eq_refl eq_refl
           ltac:(discriminate) ltac:(discriminate) eq_refl).
Defined.

(** X11: the three fields [parse_meta] returns carry no white space at
    either end, for every line. *)
Theorem parse_meta_trimmed (line : str) :
  let '(loc, dates, extra) := parse_meta line in
  trimmed loc /\ trimmed dates /\ trimmed extra.
Proof.
  unfold parse_meta. cbv zeta.
  destruct (match_meta (strip line)) as [[g1 g2]|];
    [|repeat split; reflexivity].
  assert (Te : trimmed match g2 with
                       | Some (c :: e) => strip (c :: e)
                       | _ => []
                       end).
  { destruct g2 as [[|c e]|]; [reflexivity|apply trimmed_strip|reflexivity]. }
  destruct (find_split (lit "|") (strip g1)) as [[loc dates]|].
  - repeat split; [apply trimmed_strip|apply trimmed_strip|exact Te].
  - repeat split; [apply trimmed_strip|exact Te].
Qed.

Lemma meta_field_star (s : str) :
  meta_field s ->
  forallb (fun c => negb (N.eqb c 42) && negb (N.eqb c nl)) s = true.
Proof.
  intros [_ [_ [C L]]]. apply contains_single in C.
  apply forallb_and; [exact C|exact L].
Qed.

Lemma forallb_app3 (p : N -> bool) (a m b : str) :
  forallb p a = true -> forallb p m = true -> forallb p b = true ->
  forallb p (a ++ m ++ b) = true.
Proof.
  intros Ha Hm Hb. rewrite !forallb_app, Ha, Hm, Hb. reflexivity.
Qed.

(** The bold part of a metadata line with two fields. *)
Lemma match_meta_fields (loc dates rest : str) :
  meta_field loc -> meta_field dates ->
  match_meta (lit "**" ++ (loc ++ lit " | " ++ dates) ++ lit "**" ++ rest)
  = Some (loc ++ lit " | " ++ dates, meta_tail rest).
Proof.
  intros Fl Fd. unfold match_meta. rewrite strip_prefix_app.
  rewrite (lazy_group_plain 42 [42%N]); [reflexivity| |].
  - destruct Fl as [_ [N _]]. destruct loc; [contradiction|discriminate].
  - apply forallb_app3;
      [apply meta_field_star, Fl|reflexivity|apply meta_field_star, Fd].
Qed.

Lemma meta_fields_split (loc dates : str) :
  meta_field loc -> meta_field dates ->
  contains (lit "|") loc = false ->
  strip (loc ++ lit " | " ++ dates) = loc ++ lit " | " ++ dates /\
  find_split (lit "|") (loc ++ lit " | " ++ dates)
  = Some (loc ++ lit " ", lit " " ++ dates).
Proof.
  intros [Tl [Nl _]] [Td [Nd _]] C. split.
  - pose proof (strip_join [] loc (lit " | ") dates [] Tl Nl Td Nd
                  eq_refl eq_refl) as E.
    rewrite app_nil_r in E. exact E.
  - apply contains_single in C.
    pose proof (find_split_single 124 (loc ++ lit " ") (lit " " ++ dates))
      as E.
    rewrite <- !app_assoc in E. apply E.
    rewrite forallb_app, C. reflexivity.
Qed.

(** X12: a metadata line written as bold location, pipe and dates, with
    or without a trailing pipe and italic extra, is parsed back into its
    fields. *)
Theorem parse_meta_round_trip (loc dates extra : str) :
  meta_field loc -> meta_field dates -> meta_field extra ->
  contains (lit "|") loc = false ->
  parse_meta (lit "**" ++ loc ++ lit " | " ++ dates ++ lit "**")
  = (loc, dates, []) /\
  parse_meta (lit "**" ++ loc ++ lit " | " ++ dates ++ lit "** | *"
              ++ extra ++ lit "*")
  = (loc, dates, extra).
Proof.
  intros Fl Fd Fe C.
  destruct (meta_fields_split loc dates Fl Fd C) as [S F].
  pose proof Fl as [Tl [Nl _]]. pose proof Fd as [Td [Nd _]].
  pose proof Fe as [Te [Ne _]].
  assert (Tstar : trimmed (lit "*")) by reflexivity.
  split; unfold parse_meta; cbv zeta.
  - pose proof (strip_join [] (lit "**") (loc ++ lit " | " ++ dates)
                  (lit "**") [] eq_refl ltac:(discriminate) eq_refl
                  ltac:(discriminate) eq_refl eq_refl) as E.
    rewrite app_nil_r in E. cbn [app] in E.
    rewrite <- !app_assoc in E. cbn [app] in E |- *. rewrite E.
    pose proof (match_meta_fields loc dates [] Fl Fd) as M.
    rewrite <- !app_assoc in M. cbn [app] in M. rewrite M.
    pose proof (strip_right loc (lit " ") Tl eq_refl) as Sl.
    pose proof (strip_left (lit " ") dates Td eq_refl) as Sd.
    cbn [app] in S, F, Sl, Sd. rewrite S, F, Sl, Sd. reflexivity.
  - pose proof (strip_join [] (lit "**")
                  ((loc ++ lit " | " ++ dates) ++ lit "** | *" ++ extra)
                  (lit "*") [] eq_refl ltac:(discriminate) eq_refl
                  ltac:(discriminate) eq_refl eq_refl) as E.
    rewrite app_nil_r in E. cbn [app] in E.
    rewrite <- !app_assoc in E. cbn [app] in E |- *. rewrite E.
    pose proof (match_meta_fields loc dates
                  (lit " | *" ++ extra ++ lit "*") Fl Fd) as M.
    rewrite <- !app_assoc in M. cbn [app] in M. rewrite M.
    assert (G : meta_tail (lit " | *" ++ extra ++ lit "*") = Some extra).
    { unfold meta_tail. cbn [app lstrip dropwhile].
      change (is_space 32) with true. change (is_space 124) with false.
      cbv iota. change (N.eqb 124 (ch "|")) with true. cbv iota.
      cbn [lstrip dropwhile]. change (is_space 32) with true.
      change (is_space 42) with false. cbv iota.
      change (N.eqb 42 (ch "*")) with true. cbv iota.
      pose proof (lazy_group_plain 42 [] extra [] Ne
                    (meta_field_star extra Fe)) as L.
      cbn [app] in L. rewrite L. reflexivity. }
    cbn [app] in G. rewrite G.
    pose proof (strip_right loc (lit " ") Tl eq_refl) as Sl.
    pose proof (strip_left (lit " ") dates Td eq_refl) as Sd.
    cbn [app] in S, F, Sl, Sd. rewrite S, F, Sl, Sd.
    destruct extra as [|c e]; [contradiction|]. rewrite Te. reflexivity.
Qed.

Lemma parse_meta_round_trip_witness :
  parse_meta (lit "**Berlin, DE | 2019 – 2021**")
  = (lit "Berlin, DE", lit "2019 – 2021", []) /\
  parse_meta (lit "**Berlin, DE | 2019 – 2021** | *Remote*")
  = (lit "Berlin, DE", lit "2019 – 2021", lit "Remote").
Proof.
  assert (F1 : meta_field (lit "Berlin, DE"))
    by (repeat split; discriminate).
  assert (F2 : meta_field (lit "2019 – 2021"))
    by (repeat split; discriminate).
  assert (F3 : meta_field (lit "Remote"))
    by (repeat split; discriminate).
  exact (parse_meta_round_trip _ _ _ F1 F2 F3 eq_refl).
Defined.

(** ** The returned document *)

Lemma join_cons (sep x : str) (ls : list str) :
  ls <> [] -> join sep (x :: ls) = x ++ sep ++ join sep ls.
Proof. destruct ls; [contradiction|reflexivity]. Qed.

(** X13: the text [build_resume_tex] returns is the preamble, a newline
    and lines of which the last is the end of the document; its lines are
    the lines of the preamble followed by those lines. *)
Theorem build_resume_tex_frame (unicode_lower : str -> str) (md_text : str) :
  exists body,
    Forall (fun l => no_nl l = true) body /\
    build_resume_tex unicode_lower md_text
    = LATEX_PREAMBLE ++ [nl] ++ join [nl] (body ++ [lit "\end{document}"]) /\
    output_lines unicode_lower md_text
    = split_on nl LATEX_PREAMBLE ++ body ++ [lit "\end{document}"].
Proof.
  pose proof (split_on_no_nl (strip md_text)) as Hl.
  fold (split_lines md_text) in Hl.
  destruct (grows_close_sublist _ _
              (reachable_grows unicode_lower _ _ Hl
                 (scanned_reachable unicode_lower (split_lines md_text))))
    as [body [E F]].
  exists body. split; [exact F|].
  assert (O : final_out unicode_lower (split_lines md_text)
              = LATEX_PREAMBLE :: body ++ [lit "\end{document}"]).
  { unfold final_out. rewrite E. reflexivity. }
  unfold output_lines, build_resume_tex. rewrite O. split.
  - apply join_cons. destruct body; discriminate.
  - apply split_join. apply Forall_app. split; [exact F|].
    repeat constructor.
Qed.

Section Plain.

Variable unicode_lower : str -> str.
Variable lines : list str.

Lemma scan_plain (fuel : nat) (st : state) :
  forallb plain_line lines = true ->
  out (scan unicode_lower lines fuel st) = out st /\
  item_list_open (scan unicode_lower lines fuel st) = item_list_open st /\
  sub_list_open (scan unicode_lower lines fuel st) = sub_list_open st.
Proof.
  intros H. revert st. induction fuel as [|f IH]; intros st;
    [repeat split|].
  simpl. destruct (i st <? List.length lines) eqn:E; [|repeat split].
  apply Nat.ltb_lt in E.
  assert (P : plain_line (line lines (i st)) = true).
  { rewrite forallb_forall in H. apply H. apply nth_In. exact E. }
  unfold plain_line in P. unfold step.
  destruct (kind_of (strip (line lines (i st)))); try discriminate;
    apply (IH (goto _ st)).
Qed.

Lemma final_out_plain :
  forallb plain_line lines = true ->
  final_out unicode_lower lines = [LATEX_PREAMBLE; lit "\end{document}"].
Proof.
  intros H. unfold final_out, scanned.
  destruct (scan_plain (List.length lines) (init) H) as [O [I S]].
  rewrite close_sublist_closed; [rewrite O; reflexivity|exact I|exact S].
Qed.

End Plain.

(** X14: a document whose lines are all blank, rules or plain text (no
    heading, no bullet) gives the preamble directly followed by the end of
    the document: such lines leave nothing in the output. *)
Theorem plain_text_is_dropped (unicode_lower : str -> str) (md_text : str) :
  forallb plain_line (split_lines md_text) = true ->
  build_resume_tex unicode_lower md_text
  = LATEX_PREAMBLE ++ [nl] ++ lit "\end{document}".
Proof.
  intros H. unfold build_resume_tex. rewrite (final_out_plain _ _ H).
  reflexivity.
Qed.

Lemma plain_text_is_dropped_witness :
  build_resume_tex keep_case
    (lit "Dear reader," ++ [nl] ++ [nl] ++ lit "---" ++ [nl]
     ++ lit "1. this is **not** a bullet")
  = LATEX_PREAMBLE ++ [nl] ++ lit "\end{document}".
Proof.
  apply (plain_text_is_dropped keep_case). vm_compute. reflexivity.
Defined.

(** X15: white space before and after the document does not change what
    [build_resume_tex] returns. *)
Theorem surrounding_space_ignored (unicode_lower : str -> str)
        (sp1 md_text sp2 : str) :
  forallb is_space sp1 = true -> forallb is_space sp2 = true ->
  build_resume_tex unicode_lower (sp1 ++ md_text ++ sp2)
  = build_resume_tex unicode_lower md_text.
Proof.
  intros H1 H2. unfold build_resume_tex, split_lines.
  rewrite (strip_pad _ _ _ H1 H2). reflexivity.
Qed.

Lemma surrounding_space_ignored_witness :
  build_resume_tex keep_case
    ([nl; nl] ++ lit "# Ada" ++ lit "  " ++ [nl])
  = build_resume_tex keep_case (lit "# Ada").
Proof.
  apply (surrounding_space_ignored keep_case [nl; nl] (lit "# Ada")
           (lit "  " ++ [nl])); reflexivity.
Defined.

(** ** Sections open their list *)

Lemma sections_opened_cons (l : str) (ls : list str) :
  sections_opened (l :: ls)
  = (if has_section [l]
     then match ls with
          | l2 :: _ => str_eqb l2 SUB_LIST_START
          | [] => false
          end
     else true) && sections_opened ls.
Proof. reflexivity. Qed.

Lemma last_cons_app (a b : list str) (x d : str) :
  last (a ++ x :: b) d = last (x :: b) d.
Proof.
  induction a as [|y a IH]; [reflexivity|].
  change ((y :: a) ++ x :: b) with (y :: (a ++ x :: b)).
  destruct (a ++ x :: b) as [|z w] eqn:E; [destruct a; discriminate|].
  exact IH.
Qed.

(** The invariant on a buffer: section lines are followed by the line
    that opens the sub-list, and the last line is no section line. *)
Lemma sections_opened_app (a b : list str) :
  sections_opened a = true -> has_section [last a []] = false ->
  sections_opened b = true -> sections_opened (a ++ b) = true.
Proof.
  intros Ha La Hb. induction a as [|x a IH]; [exact Hb|].
  destruct a as [|y a].
  - change ([x] ++ b) with (x :: b). change (last [x] []) with x in La.
    rewrite sections_opened_cons, La, Hb. reflexivity.
  - change ((x :: y :: a) ++ b) with (x :: y :: (a ++ b)).
    rewrite sections_opened_cons in Ha |- *.
    apply andb_prop in Ha. destruct Ha as [H1 H2].
    rewrite H1. apply IH; [exact H2|exact La].
Qed.

Lemma sections_opened_plain (ls : list str) :
  Forall (fun l => has_section [l] = false) ls ->
  sections_opened ls = true /\ has_section [last ls []] = false.
Proof.
  intros H. induction H as [|l ls Hl _ [IH1 IH2]]; [split; reflexivity|].
  rewrite sections_opened_cons, Hl, IH1. split; [reflexivity|].
  destruct ls; [exact Hl|exact IH2].
Qed.

Lemma sections_opened_quiet (a ls : list str) :
  sections_opened a = true -> has_section [last a []] = false ->
  Forall (fun l => has_section [l] = false) ls ->
  sections_opened (a ++ ls) = true /\ has_section [last (a ++ ls) []] = false.
Proof.
  intros Ha La H. destruct (sections_opened_plain ls H) as [H1 H2].
  split; [apply sections_opened_app; assumption|].
  destruct ls as [|l ls]; [rewrite app_nil_r; exact La|].
  rewrite last_cons_app. exact H2.
Qed.

Lemma sections_opened_snoc (a : list str) (l : str) :
  sections_opened a = true -> has_section [last a []] = false ->
  has_section [l] = false ->
  sections_opened (a ++ [l]) = true /\ has_section [last (a ++ [l]) []] = false.
Proof.
  intros Ha La Hl. apply sections_opened_quiet; [exact Ha|exact La|].
  repeat constructor. exact Hl.
Qed.

Lemma sections_opened_section (a : list str) (l : str) :
  sections_opened a = true -> has_section [last a []] = false ->
  sections_opened (a ++ [l; SUB_LIST_START]) = true
  /\ has_section [last (a ++ [l; SUB_LIST_START]) []] = false.
Proof.
  intros Ha La. split.
  - apply sections_opened_app; [exact Ha|exact La|].
    rewrite sections_opened_cons.
    destruct (has_section [l]); reflexivity.
  - rewrite last_cons_app. reflexivity.
Qed.

Section Sections.

Variable unicode_lower : str -> str.
Variable lines : list str.

Local Abbreviation tidy st :=
  (sections_opened (out st) = true /\ has_section [last (out st) []] = false).

Lemma quiet_plain (ls : list str) :
  Forall (quiet lines) ls -> Forall (fun l => has_section [l] = false) ls.
Proof.
  intros H. induction H as [|l ls [Hl _] _ IH]; constructor; assumption.
Qed.

Lemma close_items_tidy (st : state) : tidy st -> tidy (close_items st).
Proof.
  intros [H1 H2]. rewrite close_items_out.
  apply sections_opened_quiet; [exact H1|exact H2|].
  destruct (item_list_open st); repeat constructor.
Qed.

Lemma close_sublist_tidy (st : state) : tidy st -> tidy (close_sublist st).
Proof.
  intros [H1 H2]. rewrite close_sublist_out.
  apply sections_opened_quiet; [exact H1|exact H2|].
  destruct (item_list_open st), (sub_list_open st); repeat constructor.
Qed.

Lemma step_tidy (st : state) :
  tidy st -> tidy (step unicode_lower lines st).
Proof.
  intros T. unfold step.
  destruct (kind_of (strip (line lines (i st)))).
  - exact T.
  - destruct (handle_h1_shape lines (strip (line lines (i st))) st)
      as [_ [[a [b [c [d [E Q]]]]] _]].
    rewrite E. destruct T as [T1 T2].
    apply sections_opened_quiet; [exact T1|exact T2|].
    apply quiet_plain in Q.
    inversion Q as [|? ? Qa Q1]. inversion Q1 as [|? ? Qb Q2]. subst.
    repeat (apply Forall_cons; [assumption|]).
    apply Forall_cons; [reflexivity|exact Q2].
  - destruct (handle_h2_shape unicode_lower (strip (line lines (i st))) st)
      as [_ [[l [E _]] _]].
    rewrite E. destruct (close_sublist_tidy st T) as [T1 T2].
    apply sections_opened_section; assumption.
  - destruct (handle_h3_shape lines (strip (line lines (i st))) st)
      as [_ [[ls [E Q]] _]].
    rewrite E. destruct (close_items_tidy st T) as [T1 T2].
    apply sections_opened_quiet; [exact T1|exact T2|apply quiet_plain, Q].
  - destruct (handle_h4_shape lines (strip (line lines (i st))) st)
      as [_ [[ls [E Q]] _]].
    rewrite E. destruct (close_items_tidy st T) as [T1 T2].
    apply sections_opened_quiet; [exact T1|exact T2|apply quiet_plain, Q].
  - destruct (handle_bullet_shape (strip (line lines (i st))) st)
      as [_ [_ [_ B]]].
    destruct T as [T1 T2].
    destruct (is_flat (current_section st)).
    + destruct B as [_ [l [E [Hl _]]]]. rewrite E.
      apply sections_opened_snoc; assumption.
    + destruct B as [_ E]. rewrite E.
      apply sections_opened_quiet; [exact T1|exact T2|].
      destruct (item_list_open st); repeat constructor.
  - exact T.
Qed.

Lemma reachable_tidy (st : state) :
  reachable unicode_lower lines st -> tidy st.
Proof.
  intros R. induction R as [|st R IH Hi].
  - split; vm_compute; reflexivity.
  - apply step_tidy, IH.
Qed.

Lemma final_out_tidy :
  sections_opened (final_out unicode_lower lines) = true.
Proof.
  unfold final_out.
  destruct (close_sublist_tidy _
              (reachable_tidy _ (scanned_reachable unicode_lower lines)))
    as [T1 T2].
  apply sections_opened_snoc; [exact T1|exact T2|reflexivity].
Qed.

End Sections.

(** X16: in the lines of the returned string, every section title line is
    directly followed by the line that opens the sub-heading list. *)
Theorem sections_open_their_list (unicode_lower : str -> str)
        (md_text : str) :
  sections_opened (output_lines unicode_lower md_text) = true.
Proof.
  unfold output_lines, build_resume_tex.
  pose proof (final_out_tidy unicode_lower (split_lines md_text)) as T.
  destruct (final_out_lines unicode_lower (split_lines md_text)
              (split_on_no_nl _)) as [ls [E F]].
  rewrite E in T |- *. rewrite (split_join _ _ F).
  apply sections_opened_app; [vm_compute; reflexivity
                             |vm_compute; reflexivity|].
  rewrite sections_opened_cons in T. apply andb_prop in T. apply T.
Qed.

(** ** Style selection *)

Lemma guess_style_known (unicode_lower : str -> str) (f : str) :
  In (guess_style unicode_lower f) style_choices.
Proof.
  unfold guess_style. cbv zeta.
  destruct (contains _ _ || contains _ _); [left; reflexivity|].
  destruct (contains _ _ || contains _ _ || contains _ _);
    [right; right; left; reflexivity|right; left; reflexivity].
Qed.

(** X17: the style [main] works with, the option when it is one of the
    accepted values and the guess from the file name otherwise, is one of
    the three accepted values, and when it is not the resume style the
    lookup in [STYLES] that [build_html_pdf] makes finds its style
    sheet. *)
Theorem style_is_known (unicode_lower : str -> str) (doc_css notes_css : str)
        (arg : option str) (name : str) :
  (forall s, arg = Some s -> In s style_choices) ->
  let style := select_style unicode_lower arg name in
  In style style_choices /\
  (dispatch doc_css notes_css style = ResumeRoute
   \/ dispatch doc_css notes_css style = HtmlRoute (Some doc_css)
   \/ dispatch doc_css notes_css style = HtmlRoute (Some notes_css)).
Proof.
  intros H style.
  assert (K : In style style_choices).
  { unfold style, select_style. destruct arg as [[|c s]|];
      try apply guess_style_known. apply H. reflexivity. }
  split; [exact K|].
  destruct K as [<-|[<-|[<-|[]]]].
  - left. reflexivity.
  - right. left. reflexivity.
  - right. right. reflexivity.
Qed.

Lemma style_is_known_witness :
  In (select_style keep_case (Some (lit "notes")) (lit "resume.md"))
     style_choices /\
  (dispatch (lit "d") (lit "n")
     (select_style keep_case (Some (lit "notes")) (lit "resume.md"))
   = ResumeRoute
   \/ dispatch (lit "d") (lit "n")
        (select_style keep_case (Some (lit "notes")) (lit "resume.md"))
      = HtmlRoute (Some (lit "d"))
   \/ dispatch (lit "d") (lit "n")
        (select_style keep_case (Some (lit "notes")) (lit "resume.md"))
      = HtmlRoute (Some (lit "n"))).
Proof.
  apply (style_is_known keep_case (lit "d") (lit "n") (Some (lit "notes"))
           (lit "resume.md")).
  intros s E. injection E as <-. right. right. left. reflexivity.
Defined.

(** ** Blank lines *)

(** What the lookahead past blank lines finds, read off the lines that
    are not blank. *)
Lemma skip_blank_from_compact (ls : list str) (j : nat) :
  let b := skip_blank_from ls j - j in
  match compact ls with
  | [] => skip_blank_from ls j = j + List.length ls
  | x :: _ => skip_blank_from ls j < j + List.length ls /\ nth b ls [] = x
  end /\
  compact (skipn (S b) ls) = tl (compact ls).
Proof.
  revert j. induction ls as [|l ls IH]; intros j.
  - simpl. split; [lia|reflexivity].
  - pose proof (skip_blank_from_bounds ls (S j)) as B.
    specialize (IH (S j)). cbv zeta in IH |- *.
    unfold compact in *. cbn [skip_blank_from filter].
    destruct (is_blank l) eqn:E; cbn [negb].
    + replace (skip_blank_from ls (S j) - j)
        with (S (skip_blank_from ls (S j) - S j)) by lia.
      cbn [nth skipn List.length].
      destruct IH as [IH1 IH2]. split; [|exact IH2].
      destruct (filter _ ls); [lia|].
      destruct IH1 as [I1 I2]. split; [lia|exact I2].
    + rewrite Nat.sub_diag. cbn [nth skipn tl List.length].
      split; [split; [lia|reflexivity]|reflexivity].
Qed.

Lemma lookahead_compact (lines : list str) (k : nat) :
  let j := skip_blank lines k in
  let c := compact (skipn k lines) in
  (j <? List.length lines) = match c with [] => false | _ => true end /\
  line lines j = hd [] c /\
  compact (skipn (S j) lines) = tl c.
Proof.
  cbv zeta. unfold skip_blank, line.
  destruct (Nat.le_gt_cases k (List.length lines)) as [Hk|Hk].
  - pose proof (skip_blank_from_compact (skipn k lines) k) as H.
    pose proof (skip_blank_from_bounds (skipn k lines) k) as B.
    cbv zeta in H. rewrite length_skipn in H, B.
    set (j := skip_blank_from (skipn k lines) k) in *.
    destruct H as [H1 H2].
    replace (S j) with (S (j - k) + k) by lia.
    rewrite <- skipn_skipn. split; [|split; [|exact H2]].
    + destruct (compact (skipn k lines)).
      * apply Nat.ltb_ge. lia.
      * apply Nat.ltb_lt. lia.
    + destruct (compact (skipn k lines)).
      * apply nth_overflow. lia.
      * destruct H1 as [_ H1]. rewrite nth_skipn_str in H1.
        replace (k + (j - k)) with j in H1 by lia. exact H1.
  - rewrite (skipn_all2 lines (n := k)) by lia.
    rewrite (skipn_all2 lines (n := S (skip_blank_from [] k)))
      by (simpl; lia).
    simpl. split; [apply Nat.ltb_ge; lia|].
    split; [apply nth_overflow; lia|reflexivity].
Qed.

Lemma skipn_cons_nth (lines : list str) (k : nat) :
  k < List.length lines ->
  skipn k lines = nth k lines [] :: skipn (S k) lines.
Proof.
  revert lines. induction k as [|k IH]; intros [|l ls] H; simpl in H;
    try lia; [reflexivity|].
  apply (IH ls). lia.
Qed.

Lemma ahead_blank (lines : list str) (k : nat) :
  is_blank (line lines k) = true ->
  compact (skipn k lines) = compact (skipn (S k) lines).
Proof.
  intros B. destruct (Nat.lt_ge_cases k (List.length lines)) as [H|H].
  - rewrite (skipn_cons_nth lines k H). unfold compact. cbn [filter].
    unfold line in B. rewrite B. reflexivity.
  - rewrite !skipn_all2 by lia. reflexivity.
Qed.

Lemma ahead_line (lines : list str) (k : nat) :
  k < List.length lines -> is_blank (line lines k) = false ->
  compact (skipn k lines) = line lines k :: compact (skipn (S k) lines).
Proof.
  intros H B. rewrite (skipn_cons_nth lines k H). unfold compact.
  cbn [filter]. unfold line in B. rewrite B. reflexivity.
Qed.

Lemma ahead_end (lines : list str) (k : nat) :
  List.length lines <= k -> compact (skipn k lines) = [].
Proof. intros H. rewrite skipn_all2 by lia. reflexivity. Qed.

(** A test on the line the lookahead finds. *)
Lemma peek_ahead (lines : list str) (k : nat) (p : str) :
  (skip_blank lines k <? List.length lines)
  && startswith p (strip (line lines (skip_blank lines k)))
  = match compact (skipn k lines) with
    | [] => false
    | x :: _ => startswith p (strip x)
    end.
Proof.
  destruct (lookahead_compact lines k) as [H1 [H2 _]].
  rewrite H1, H2. destruct (compact (skipn k lines)); reflexivity.
Qed.

Section BlankLines.

Variable unicode_lower : str -> str.
Variables lines lines2 : list str.

(** Two states of two scans that differ in the cursor only, with the same
    lines left that are not blank. *)
Local Abbreviation ahead ls k := (compact (skipn k ls)).
Local Abbreviation paired st st2 :=
  (st2 = goto (i st2) st /\ ahead lines (i st) = ahead lines2 (i st2)).

Lemma emits_goto (ls : list str) (k : nat) (st : state) :
  emits ls (goto k st) = goto k (emits ls st).
Proof.
  revert st. induction ls as [|l ls IH]; intros st; [reflexivity|].
  rewrite !emits_cons. rewrite <- IH. reflexivity.
Qed.

Lemma close_items_goto (k : nat) (st : state) :
  close_items (goto k st) = goto k (close_items st).
Proof. unfold close_items. simpl. destruct (item_list_open st); reflexivity. Qed.

Lemma close_sublist_goto (k : nat) (st : state) :
  close_sublist (goto k st) = goto k (close_sublist st).
Proof.
  unfold close_sublist. rewrite close_items_goto. simpl.
  destruct (sub_list_open (close_items st)); reflexivity.
Qed.

Lemma handle_h1_paired (L : str) (st : state) (k2 : nat) :
  ahead lines (S (i st)) = ahead lines2 (S k2) ->
  paired (handle_h1 lines L st) (handle_h1 lines2 L (goto k2 st)).
Proof.
  intros A. unfold handle_h1. cbv zeta.
  rewrite emits_goto, !goto_i, goto_goto.
  destruct (lookahead_compact lines (S (i st))) as [H1 [H2 H3]].
  destruct (lookahead_compact lines2 (S k2)) as [K1 [K2 K3]].
  rewrite H1, H2, H3, K1, K2, K3, A. split; [|reflexivity].
  rewrite goto_goto. reflexivity.
Qed.

Lemma handle_h2_paired (L : str) (st : state) (k2 : nat) :
  ahead lines (S (i st)) = ahead lines2 (S k2) ->
  paired (handle_h2 unicode_lower L st)
         (handle_h2 unicode_lower L (goto k2 st)).
Proof.
  intros A. unfold handle_h2. cbv zeta.
  rewrite close_sublist_goto.
  split; [reflexivity|].
  rewrite !goto_i. cbn [i emit set_section set_sub goto].
  rewrite close_sublist_i. exact A.
Qed.

Lemma handle_h4_paired (L : str) (st : state) (k2 : nat) :
  ahead lines (S (i st)) = ahead lines2 (S k2) ->
  paired (handle_h4 L st) (handle_h4 L (goto k2 st)).
Proof.
  intros A. unfold handle_h4. cbv zeta.
  rewrite close_items_goto, emits_goto, !goto_i, close_items_i, goto_goto.
  split; [rewrite goto_goto; reflexivity|exact A].
Qed.

Lemma handle_bullet_paired (L : str) (st : state) (k2 : nat) :
  ahead lines (S (i st)) = ahead lines2 (S k2) ->
  paired (handle_bullet L st) (handle_bullet L (goto k2 st)).
Proof.
  intros A. unfold handle_bullet. cbv zeta.
  destruct st as [i0 o it su cs]. cbn [goto current_section item_list_open
    i out sub_list_open].
  destruct (is_flat cs).
  - destruct (match_label _) as [[g1 g2]|]; (split; [reflexivity|exact A]).
  - destruct it; (split; [reflexivity|exact A]).
Qed.

Lemma meta_lookahead_paired (k k2 : nat) (role : str) :
  ahead lines (S k) = ahead lines2 (S k2) ->
  exists loc dates role' next next2,
    meta_lookahead lines k role = (loc, dates, role', next) /\
    meta_lookahead lines2 k2 role = (loc, dates, role', next2) /\
    ahead lines next = ahead lines2 next2.
Proof.
  intros A. unfold meta_lookahead, has_meta. cbv zeta.
  rewrite !peek_ahead.
  destruct (lookahead_compact lines (S k)) as [_ [H2 H3]].
  destruct (lookahead_compact lines2 (S k2)) as [_ [K2 K3]].
  rewrite H2, K2, A. rewrite A in H3.
  destruct (ahead lines2 (S k2)) as [|x c] eqn:E.
  - exists [], [], role, (S k), (S k2). rewrite A, E.
    repeat split.
  - cbn [hd]. destruct (startswith (lit "**") (strip x)).
    + destruct (parse_meta x) as [[loc dates] extra].
      eexists _, _, _, _, _. split; [reflexivity|]. split; [reflexivity|].
      rewrite H3, K3. reflexivity.
    + exists [], [], role, (S k), (S k2). rewrite A, E.
      repeat split.
Qed.

Lemma handle_h3_paired (L : str) (st : state) (k2 : nat) :
  ahead lines (S (i st)) = ahead lines2 (S k2) ->
  paired (handle_h3 lines L st) (handle_h3 lines2 L (goto k2 st)).
Proof.
  intros A. unfold handle_h3. cbv zeta.
  rewrite close_items_goto, goto_i, close_items_i.
  destruct (parse_heading3 L) as [company role].
  destruct (meta_lookahead_paired (i st) k2 (escape_tex role) A)
    as [loc [dates [role' [next [next2 [M1 [M2 N]]]]]]].
  rewrite M1, M2, !peek_ahead, N, !goto_section, goto_goto.
  destruct (contains (lit "education") (current_section (close_items st)));
    [|destruct (match ahead lines2 next2 with
                | [] => false
                | x :: _ => startswith (lit "####") (strip x)
                end)];
    rewrite !emits_goto, !goto_i, goto_goto; (split; [reflexivity|exact N]).
Qed.

Lemma step_paired (st st2 : state) :
  i st < List.length lines -> i st2 < List.length lines2 ->
  is_blank (line lines (i st)) = false ->
  is_blank (line lines2 (i st2)) = false ->
  paired st st2 ->
  paired (step unicode_lower lines st) (step unicode_lower lines2 st2).
Proof.
  intros H H2 B B2 [E A].
  rewrite (ahead_line lines _ H B), (ahead_line lines2 _ H2 B2) in A.
  injection A. intros A' EL.
  unfold step. rewrite <- EL, E, goto_i.
  destruct (kind_of (strip (line lines (i st)))).
  - rewrite goto_goto. split; [rewrite goto_i; reflexivity|exact A'].
  - apply handle_h1_paired, A'.
  - apply handle_h2_paired, A'.
  - apply handle_h3_paired, A'.
  - apply handle_h4_paired, A'.
  - apply handle_bullet_paired, A'.
  - rewrite goto_goto. split; [rewrite goto_i; reflexivity|exact A'].
Qed.

Lemma goto_paired (m k : nat) (st st2 : state) :
  st2 = goto k st -> goto m st2 = goto m st.
Proof. intros ->. apply goto_goto. Qed.

Lemma step_blank (ls : list str) (st : state) :
  is_blank (line ls (i st)) = true ->
  step unicode_lower ls st = goto (S (i st)) st.
Proof. intros B. unfold step. rewrite (blank_kind _ B). reflexivity. Qed.

Lemma scan_unfold (ls : list str) (f : nat) (st : state) :
  i st < List.length ls -> List.length ls <= i st + f ->
  exists f', f = S f' /\
    scan unicode_lower ls f st = scan unicode_lower ls f' (step unicode_lower ls st)
    /\ List.length ls <= i (step unicode_lower ls st) + f'.
Proof.
  intros H F. destruct f as [|f']; [lia|]. exists f'.
  split; [reflexivity|]. simpl.
  apply Nat.ltb_lt in H. rewrite H. split; [reflexivity|].
  pose proof (step_advances unicode_lower ls st). lia.
Qed.

(** Two scans that go through the same lines apart from blank ones end
    with the same buffer and flags. *)
Lemma scan_paired (n : nat) :
  forall f f2 st st2,
    (List.length lines - i st) + (List.length lines2 - i st2) <= n ->
    List.length lines <= i st + f -> List.length lines2 <= i st2 + f2 ->
    paired st st2 ->
    exists k, scan unicode_lower lines2 f2 st2
              = goto k (scan unicode_lower lines f st).
Proof.
  induction n as [|n IH]; intros f f2 st st2 Hn Hf Hf2 [E A].
  - exists (i st2). rewrite !scan_done by lia. exact E.
  - destruct (Nat.lt_ge_cases (i st) (List.length lines)) as [H|H].
    + destruct (scan_unfold lines f st H Hf) as [f' [-> [S1 F1]]].
      pose proof (step_advances unicode_lower lines st) as Adv.
      destruct (is_blank (line lines (i st))) eqn:B.
      * rewrite S1. apply IH; [lia|exact F1|exact Hf2|].
        rewrite (step_blank _ _ B), goto_i, <- (ahead_blank _ _ B).
        split; [rewrite goto_goto; exact E|exact A].
      * destruct (Nat.lt_ge_cases (i st2) (List.length lines2)) as [H2|H2].
        -- destruct (scan_unfold lines2 f2 st2 H2 Hf2) as [f2' [-> [S2 F2]]].
           pose proof (step_advances unicode_lower lines2 st2) as Adv2.
           destruct (is_blank (line lines2 (i st2))) eqn:B2.
           ++ rewrite S2.
              apply (IH (S f') f2' st); [lia|exact Hf|exact F2|].
              rewrite (step_blank _ _ B2), goto_i, <- (ahead_blank _ _ B2).
              split; [exact (goto_paired _ _ _ _ E)|exact A].
           ++ rewrite S1, S2. apply IH; [lia|exact F1|exact F2|].
              apply step_paired; try assumption. split; assumption.
        -- rewrite (ahead_line lines _ H B), (ahead_end lines2 _ H2) in A.
           discriminate A.
    + destruct (Nat.lt_ge_cases (i st2) (List.length lines2)) as [H2|H2].
      * destruct (scan_unfold lines2 f2 st2 H2 Hf2) as [f2' [-> [S2 F2]]].
        pose proof (step_advances unicode_lower lines2 st2) as Adv2.
        destruct (is_blank (line lines2 (i st2))) eqn:B2.
        -- rewrite S2. apply IH; [lia|exact Hf|exact F2|].
           rewrite (step_blank _ _ B2), goto_i, <- (ahead_blank _ _ B2).
           split; [exact (goto_paired _ _ _ _ E)|exact A].
        -- rewrite (ahead_line lines2 _ H2 B2), (ahead_end lines _ H) in A.
           discriminate A.
      * exists (i st2). rewrite !scan_done by lia. exact E.
Qed.

Lemma final_out_paired :
  compact lines = compact lines2 ->
  final_out unicode_lower lines = final_out unicode_lower lines2.
Proof.
  intros C. unfold final_out, scanned.
  destruct (scan_paired (List.length lines + List.length lines2)
              (List.length lines) (List.length lines2) init init)
    as [k K]; [simpl; lia|simpl; lia|simpl; lia| |].
  - split; [reflexivity|exact C].
  - rewrite K, close_sublist_goto. reflexivity.
Qed.

End BlankLines.

(** X18: two documents whose lines, blank lines left out, are the same
    give the same output: where lines are blank does not matter. *)
Theorem blank_lines_ignored (unicode_lower : str -> str) (md1 md2 : str) :
  compact (split_lines md1) = compact (split_lines md2) ->
  build_resume_tex unicode_lower md1 = build_resume_tex unicode_lower md2.
Proof.
  intros C. unfold build_resume_tex.
  rewrite (final_out_paired unicode_lower _ _ C). reflexivity.
Qed.

Lemma blank_lines_ignored_witness :
  build_resume_tex keep_case
    (lit "# Ada" ++ [nl; nl] ++ lit "ada@x.io" ++ [nl] ++ lit "## Skills"
     ++ [nl] ++ lit "   " ++ [nl] ++ lit "- **Lang:** Coq")
  = build_resume_tex keep_case
      (lit "# Ada" ++ [nl] ++ lit "ada@x.io" ++ [nl; nl; nl]
       ++ lit "## Skills" ++ [nl] ++ lit "- **Lang:** Coq").
Proof.
  apply (blank_lines_ignored keep_case). vm_compute. reflexivity.
Defined.

(** ** The formatter keeps special characters escaped *)

Lemma specials_escaped_weaken (b : bool) (s : str) :
  specials_escaped false s = true -> specials_escaped b s = true.
Proof.
  destruct s as [|c s]; [reflexivity|]. cbn [specials_escaped].
  intros H. apply andb_prop in H. destruct H as [H1 H2].
  rewrite H2, andb_true_r. rewrite orb_false_r in H1. rewrite H1.
  reflexivity.
Qed.

Lemma specials_escaped_app (b : bool) (a c : str) :
  specials_escaped b (a ++ c)
  = specials_escaped b a
    && specials_escaped (match a with
                         | [] => b
                         | _ => N.eqb (last a 0%N) 92
                         end) c.
Proof.
  revert b. induction a as [|x a IH]; intros b; [reflexivity|].
  change ((x :: a) ++ c) with (x :: (a ++ c)).
  cbn [specials_escaped]. rewrite IH, andb_assoc.
  destruct a; reflexivity.
Qed.

Lemma specials_escaped_glue (b : bool) (a c : str) :
  specials_escaped b a = true -> specials_escaped false c = true ->
  specials_escaped b (a ++ c) = true.
Proof.
  intros Ha Hc. rewrite specials_escaped_app, Ha.
  apply specials_escaped_weaken, Hc.
Qed.

(** Cutting at a character that is no backslash. *)
Lemma specials_escaped_cut (b : bool) (a c : str) (x : N) :
  N.eqb x 92 = false ->
  specials_escaped b (a ++ x :: c) = true ->
  specials_escaped b a = true /\ specials_escaped false c = true.
Proof.
  intros Hx H. rewrite specials_escaped_app in H.
  apply andb_prop in H. destruct H as [H1 H2]. split; [exact H1|].
  cbn [specials_escaped] in H2. apply andb_prop in H2.
  destruct H2 as [_ H2]. rewrite Hx in H2. exact H2.
Qed.

Lemma specials_escaped_plain (b : bool) (s : str) :
  forallb (fun c => negb (is_special c)) s = true ->
  specials_escaped b s = true.
Proof.
  revert b. induction s as [|c s IH]; intros b; [reflexivity|].
  simpl. intros H. apply andb_prop in H. destruct H as [H1 H2].
  rewrite H1, (IH _ H2). reflexivity.
Qed.

Lemma strip_prefix_inv (p s r : str) :
  strip_prefix p s = Some r -> s = p ++ r.
Proof.
  revert s. induction p as [|x p IH]; intros s H.
  - injection H. intros ->. reflexivity.
  - destruct s as [|y s]; [discriminate|]. simpl in H.
    destruct (N.eqb_spec x y) as [->|]; [|discriminate].
    rewrite (IH s H). reflexivity.
Qed.

Lemma lazy_group_inv (d s g rest : str) :
  lazy_group d s = Some (g, rest) -> s = g ++ d ++ rest.
Proof.
  revert g. induction s as [|c s IH]; intros g H; [discriminate|].
  cbn [lazy_group] in H. destruct (N.eqb c nl); [discriminate|].
  destruct (strip_prefix d s) as [r|] eqn:P.
  - injection H. intros <- <-. rewrite (strip_prefix_inv _ _ _ P).
    reflexivity.
  - destruct (lazy_group d s) as [[g' r]|]; [|discriminate].
    injection H. intros <- <-. rewrite (IH g' eq_refl). reflexivity.
Qed.

Lemma link_groups_inv (s g1 g2 rest : str) :
  link_groups s = Some (g1, g2, rest) ->
  s = g1 ++ lit "](" ++ g2 ++ lit ")" ++ rest.
Proof.
  revert g1. induction s as [|c s IH]; intros g1 H; [discriminate|].
  cbn [link_groups] in H. destruct (N.eqb c nl); [discriminate|].
  destruct (link_tail s) as [[g r]|] eqn:T.
  - injection H. intros <- <- <-. unfold link_tail in T.
    destruct (strip_prefix _ s) as [r'|] eqn:P; [|discriminate].
    rewrite (strip_prefix_inv _ _ _ P), (lazy_group_inv _ _ _ _ T).
    reflexivity.
  - destruct (link_groups s) as [[[g1' g2'] r]|]; [|discriminate].
    injection H. intros <- <- <-. rewrite (IH g1' eq_refl). reflexivity.
Qed.

(** A substitution keeps special characters escaped when each match
    does. *)
Lemma re_sub_escaped (pat : str -> option (str * str)) :
  (forall s repl rest b,
     pat s = Some (repl, rest) -> specials_escaped b s = true ->
     specials_escaped b repl = true /\ specials_escaped false rest = true) ->
  forall f s b,
    specials_escaped b s = true ->
    specials_escaped b (re_sub pat f s) = true.
Proof.
  intros Hp. induction f as [|f IH]; intros s b H; [exact H|].
  destruct s as [|c s]; [reflexivity|]. cbn [re_sub].
  destruct (pat (c :: s)) as [[repl rest]|] eqn:P.
  - destruct (Hp _ _ _ _ P H) as [H1 H2].
    apply specials_escaped_glue; [exact H1|apply IH, H2].
  - cbn [specials_escaped] in H |- *. apply andb_prop in H.
    destruct H as [H1 H2]. rewrite H1. apply IH, H2.
Qed.

Lemma pat_bold_escaped (s repl rest : str) (b : bool) :
  pat_bold s = Some (repl, rest) -> specials_escaped b s = true ->
  specials_escaped b repl = true /\ specials_escaped false rest = true.
Proof.
  unfold pat_bold. intros E H.
  destruct (strip_prefix _ s) as [r|] eqn:P; [|discriminate].
  destruct (lazy_group _ r) as [[g rest']|] eqn:G; [|discriminate].
  assert (R : repl = lit "\textbf{" ++ g ++ lit "}" /\ rest = rest')
    by (split; congruence).
  destruct R as [-> ->]. clear E.
  apply strip_prefix_inv in P. apply lazy_group_inv in G. subst s r.
  destruct (specials_escaped_cut b [42%N] _ 42 eq_refl H) as [_ H1].
  destruct (specials_escaped_cut false g _ 42 eq_refl H1) as [Hg H2].
  destruct (specials_escaped_cut false [] _ 42 eq_refl H2) as [_ Hr].
  split; [|exact Hr].
  apply specials_escaped_glue; [reflexivity|].
  apply specials_escaped_glue; [exact Hg|reflexivity].
Qed.

Lemma pat_italic_escaped (s repl rest : str) (b : bool) :
  pat_italic s = Some (repl, rest) -> specials_escaped b s = true ->
  specials_escaped b repl = true /\ specials_escaped false rest = true.
Proof.
  unfold pat_italic. intros E H.
  destruct (strip_prefix _ s) as [r|] eqn:P; [|discriminate].
  destruct (lazy_group _ r) as [[g rest']|] eqn:G; [|discriminate].
  assert (R : repl = lit "\textit{" ++ g ++ lit "}" /\ rest = rest')
    by (split; congruence).
  destruct R as [-> ->]. clear E.
  apply strip_prefix_inv in P. apply lazy_group_inv in G. subst s r.
  destruct (specials_escaped_cut b [] _ 42 eq_refl H) as [_ H1].
  destruct (specials_escaped_cut false g _ 42 eq_refl H1) as [Hg Hr].
  split; [|exact Hr].
  apply specials_escaped_glue; [reflexivity|].
  apply specials_escaped_glue; [exact Hg|reflexivity].
Qed.

Lemma pat_link_escaped (s repl rest : str) (b : bool) :
  pat_link s = Some (repl, rest) -> specials_escaped b s = true ->
  specials_escaped b repl = true /\ specials_escaped false rest = true.
Proof.
  unfold pat_link. intros E H.
  destruct (strip_prefix _ s) as [r|] eqn:P; [|discriminate].
  destruct (link_groups r) as [[[g1 g2] rest']|] eqn:G; [|discriminate].
  assert (R : repl = lit "\href{" ++ g2 ++ lit "}{" ++ g1 ++ lit "}"
              /\ rest = rest') by (split; congruence).
  destruct R as [-> ->]. clear E.
  apply strip_prefix_inv in P. apply link_groups_inv in G. subst s r.
  destruct (specials_escaped_cut b [] _ 91 eq_refl H) as [_ H1].
  destruct (specials_escaped_cut false g1 _ 93 eq_refl H1) as [Hg1 H2].
  destruct (specials_escaped_cut false [] _ 40 eq_refl H2) as [_ H3].
  destruct (specials_escaped_cut false g2 _ 41 eq_refl H3) as [Hg2 Hr].
  split; [|exact Hr].
  apply specials_escaped_glue; [reflexivity|].
  apply specials_escaped_glue; [exact Hg2|].
  apply specials_escaped_glue; [reflexivity|].
  apply specials_escaped_glue; [exact Hg1|reflexivity].
Qed.

Lemma replace1_escaped (c : N) (new s : str) (b : bool) :
  N.eqb c 92 = false ->
  forallb (fun x => negb (is_special x)) new = true ->
  specials_escaped b s = true ->
  specials_escaped b (replace1 c new s) = true.
Proof.
  intros Hc Hn. revert b. induction s as [|x s IH]; intros b H;
    [reflexivity|].
  cbn [specials_escaped] in H. apply andb_prop in H. destruct H as [H1 H2].
  cbn [replace1]. destruct (N.eqb_spec x c) as [->|].
  - rewrite Hc in H2.
    apply specials_escaped_glue;
      [apply specials_escaped_plain, Hn|apply IH, H2].
  - cbn [specials_escaped]. rewrite H1. apply IH, H2.
Qed.

(** X19: in the text [fmt] returns, every ampersand, percent sign, hash
    and underscore stands right after a backslash: the markup and
    typographic substitutions never separate an escaped character from
    its backslash, for every input text. *)
Theorem fmt_escapes_all (t : str) : specials_escaped false (fmt t) = true.
Proof.
  unfold fmt, fmt_markup. cbv zeta.
  do 4 (apply replace1_escaped; [reflexivity|reflexivity|]).
  apply (re_sub_escaped pat_link pat_link_escaped).
  apply (re_sub_escaped pat_italic pat_italic_escaped).
  apply (re_sub_escaped pat_bold pat_bold_escaped).
  rewrite escape_tex_flat_map. apply flat_map_escaped.
Qed.
